(** * BedrockAgentBlueprintsConstruct: the resource-assembly pipeline

    A shallow embedding of [src/bin/BedrockAgentBlueprintsConstruct.ts].

    The construct is stateful: it declares child resources in the construct
    tree, rewrites [this.agentDefinition], draws random identifiers, creates
    a temporary directory and adds permissions to the caller's functions.
    Every method is therefore a computation in a state-and-exception monad
    [M] over the record [State].  A thrown exception keeps the state reached
    so far, as in JavaScript: what was declared before the throw stays
    declared.

    The classes of aws-cdk-lib (Role, Bucket, BucketDeployment, CfnAgent,
    Function) are collaborators.  Their constructors are modelled at their
    interface: each registers the child under its id, which throws when a
    sibling already has that id, and records the declaration with the
    properties the source passes; a BucketDeployment also throws when its
    destination bucket is undefined.  Deploy-time attributes (ARNs, names,
    object keys) are opaque tokens rendered from the construct id. *)

From stdpp Require Import base strings gmap list option.

(** ** JavaScript values *)

(** A string is truthy when it is present and not empty. *)
Definition truthy_string (v : option string) : bool :=
  match v with
  | Some EmptyString => false
  | Some (String _ _) => true
  | None => false
  end.

(** An object (Buffer, array, construct, plain object) is truthy when it is
    present. *)
Definition truthy_object {A : Type} (v : option A) : bool :=
  match v with
  | Some _ => true
  | None => false
  end.

(** A template literal renders an undefined value as the text undefined. *)
Definition template (v : option string) : string :=
  match v with
  | Some s => s
  | None => "undefined"
  end.

(** [String.prototype.slice(0, n)]. *)
Definition slice0 (n : nat) (s : string) : string := String.substring 0 n s.

(** Deploy-time attribute of a construct, a token. *)
Definition token (id attr : string) : string :=
  "${Token[" +:+ id +:+ "." +:+ attr +:+ "]}".

Definition Buffer : Type := list Byte.byte.

(** [FileBufferMap]: file name to content. *)
Abbreviation FileBufferMap := (gmap string Buffer).

(** ** aws-iam *)

Module Iam.

Inductive Effect := ALLOW | DENY.

(** One entry [{ operator: { key: value } }] of a conditions object. *)
Record Condition := {
  operator : string;
  key : string;
  value : option string
}.

Record ServicePrincipal := {
  service : string;
  principalConditions : list Condition
}.

Record PolicyStatement := {
  sid : string;
  effect : Effect;
  actions : list string;
  resources : list string;
  conditions : list Condition
}.

Record Role := {
  assumedBy : ServicePrincipal;
  roleName : string;
  description : string;
  policy : list PolicyStatement
}.

(** [role.addToPolicy(statement)]: statements are appended. *)
Definition addToPolicy (st : PolicyStatement) (r : Role) : Role :=
  {| assumedBy := assumedBy r;
     roleName := roleName r;
     description := description r;
     policy := policy r ++ [st] |}.

End Iam.

(** ** aws-s3 and aws-s3-deployment *)

Module S3.

Inductive BucketEncryption := S3_MANAGED | KMS | UNENCRYPTED.
Inductive BlockPublicAccess := BLOCK_ALL | BLOCK_ACLS.

Record Bucket := {
  encryption : BucketEncryption;
  blockPublicAccess : BlockPublicAccess;
  enforceSSL : bool
}.

Record BucketDeployment := {
  sources : list string;
  destinationBucket : option string;
  destinationKeyPrefix : string
}.

End S3.

(** ** aws-lambda *)

Module Lambda.

Record Function := { functionId : string }.

Record Permission := {
  action : string;
  principal : Iam.ServicePrincipal;
  sourceArn : string
}.

End Lambda.

(** ** aws-bedrock: [CfnAgent] and its property types *)

Module CfnAgent.

Record FunctionProperty := {
  name : string;
  functionDescription : option string
}.

Record FunctionSchemaProperty := { functions : list FunctionProperty }.

Record S3IdentifierProperty := {
  s3BucketName : option string;
  s3ObjectKey : option string
}.

Record APISchemaProperty := {
  payload : option string;
  s3 : option S3IdentifierProperty
}.

Record ActionGroupExecutorProperty := {
  lambda : option string;
  customControl : option string
}.

Record AgentActionGroupProperty := {
  actionGroupName : string;
  actionGroupExecutor : option ActionGroupExecutorProperty;
  description : option string;
  actionGroupState : option string;
  apiSchema : option APISchemaProperty;
  functionSchema : option FunctionSchemaProperty
}.

(** [CfnAgentProps]: the fields the construct reads or writes, and
    [instruction] standing for the ones it only carries along. *)
Record Props := {
  agentName : string;
  foundationModel : option string;
  agentResourceRoleArn : option string;
  instruction : option string;
  actionGroups : option (list AgentActionGroupProperty)
}.

(** [{ ...props, agentResourceRoleArn: arn }] *)
Definition withRole (arn : string) (p : Props) : Props :=
  {| agentName := agentName p;
     foundationModel := foundationModel p;
     agentResourceRoleArn := Some arn;
     instruction := instruction p;
     actionGroups := actionGroups p |}.

(** [{ ...props, actionGroups: l }] *)
Definition withActionGroups (l : list AgentActionGroupProperty) (p : Props) : Props :=
  {| agentName := agentName p;
     foundationModel := foundationModel p;
     agentResourceRoleArn := agentResourceRoleArn p;
     instruction := instruction p;
     actionGroups := Some l |}.

End CfnAgent.

(** ** ./constructs/AgentActionGroup *)

(** Modelled from the spec: the declaration of [SchemaDefinition] is in
    ./constructs/AgentActionGroup, which the source imports and which is not
    at hand.  The three variants of a schema specification, each optional:
    the inline document is the string that becomes [apiSchema.payload], the
    file reference is a [Buffer], the function schema is the property of
    [CfnAgent]. *)
Record SchemaDefinition := {
  inlineAPISchema : option string;
  apiSchemaFile : option Buffer;
  functionSchema : option CfnAgent.FunctionSchemaProperty
}.

(** Modelled from the spec: the class [AgentActionGroup] is declared in the
    same module.  The members the construct reads: name, optional
    description, activation state, the schema specification, the optional
    backing function; [getActionExecutor] is a method, and the record keeps
    the executor reference a call returns. *)
Record AgentActionGroup := {
  actionGroupName : string;
  description : option string;
  actionGroupState : option string;
  schemaDefinition : SchemaDefinition;
  lambdaFunc : option Lambda.Function;
  getActionExecutor : option CfnAgent.ActionGroupExecutorProperty
}.

Record BedrockAgentBlueprintsConstructProps := {
  props_agentDefinition : CfnAgent.Props;
  props_actionGroups : option (list AgentActionGroup)
}.

(** ** State *)

(** A child of the construct, as declared. *)
Inductive Resource :=
| RBucket (b : S3.Bucket)
| RRole (r : Iam.Role)
| RDeployment (d : S3.BucketDeployment)
| RAgent (p : CfnAgent.Props).

Record State := {
  (** the process: environment variables, the random sources of [uuidv4] and
      [mkdtempSync] with the number of draws made, and the file system
      below the temporary directory *)
  env : gmap string string;
  uuid_source : nat → string;
  uuid_drawn : nat;
  mkdtemp_source : nat → string;
  mkdtemp_drawn : nat;
  tmpdir : string;
  fs : gmap string FileBufferMap;
  (** the construct tree: children of [this] by id, in declaration order *)
  children : list (string * Resource);
  (** the resource-policy permissions of the caller's functions, the part of
      the caller's objects that the construct can change *)
  permissions : list (Lambda.Function * (string * Lambda.Permission));
  (** the fields of [this]; a construct is referred to by its id *)
  agent : option string;
  agentDefinition : CfnAgent.Props;
  agentServiceRole : option string;
  assetManagementBucket : option string
}.

Definition set_uuid_drawn (n : nat) (s : State) : State :=
  {| env := env s; uuid_source := uuid_source s; uuid_drawn := n;
     mkdtemp_source := mkdtemp_source s; mkdtemp_drawn := mkdtemp_drawn s;
     tmpdir := tmpdir s; fs := fs s; children := children s;
     permissions := permissions s;
     agent := agent s; agentDefinition := agentDefinition s;
     agentServiceRole := agentServiceRole s;
     assetManagementBucket := assetManagementBucket s |}.

Definition set_mkdtemp_drawn (n : nat) (s : State) : State :=
  {| env := env s; uuid_source := uuid_source s; uuid_drawn := uuid_drawn s;
     mkdtemp_source := mkdtemp_source s; mkdtemp_drawn := n;
     tmpdir := tmpdir s; fs := fs s; children := children s;
     permissions := permissions s;
     agent := agent s; agentDefinition := agentDefinition s;
     agentServiceRole := agentServiceRole s;
     assetManagementBucket := assetManagementBucket s |}.

Definition set_fs (f : gmap string FileBufferMap) (s : State) : State :=
  {| env := env s; uuid_source := uuid_source s; uuid_drawn := uuid_drawn s;
     mkdtemp_source := mkdtemp_source s; mkdtemp_drawn := mkdtemp_drawn s;
     tmpdir := tmpdir s; fs := f; children := children s;
     permissions := permissions s;
     agent := agent s; agentDefinition := agentDefinition s;
     agentServiceRole := agentServiceRole s;
     assetManagementBucket := assetManagementBucket s |}.

Definition set_children (c : list (string * Resource)) (s : State) : State :=
  {| env := env s; uuid_source := uuid_source s; uuid_drawn := uuid_drawn s;
     mkdtemp_source := mkdtemp_source s; mkdtemp_drawn := mkdtemp_drawn s;
     tmpdir := tmpdir s; fs := fs s; children := c;
     permissions := permissions s;
     agent := agent s; agentDefinition := agentDefinition s;
     agentServiceRole := agentServiceRole s;
     assetManagementBucket := assetManagementBucket s |}.

Definition set_permissions
    (p : list (Lambda.Function * (string * Lambda.Permission))) (s : State) : State :=
  {| env := env s; uuid_source := uuid_source s; uuid_drawn := uuid_drawn s;
     mkdtemp_source := mkdtemp_source s; mkdtemp_drawn := mkdtemp_drawn s;
     tmpdir := tmpdir s; fs := fs s; children := children s;
     permissions := p;
     agent := agent s; agentDefinition := agentDefinition s;
     agentServiceRole := agentServiceRole s;
     assetManagementBucket := assetManagementBucket s |}.

Definition set_agent (a : option string) (s : State) : State :=
  {| env := env s; uuid_source := uuid_source s; uuid_drawn := uuid_drawn s;
     mkdtemp_source := mkdtemp_source s; mkdtemp_drawn := mkdtemp_drawn s;
     tmpdir := tmpdir s; fs := fs s; children := children s;
     permissions := permissions s;
     agent := a; agentDefinition := agentDefinition s;
     agentServiceRole := agentServiceRole s;
     assetManagementBucket := assetManagementBucket s |}.

Definition set_agentDefinition (d : CfnAgent.Props) (s : State) : State :=
  {| env := env s; uuid_source := uuid_source s; uuid_drawn := uuid_drawn s;
     mkdtemp_source := mkdtemp_source s; mkdtemp_drawn := mkdtemp_drawn s;
     tmpdir := tmpdir s; fs := fs s; children := children s;
     permissions := permissions s;
     agent := agent s; agentDefinition := d;
     agentServiceRole := agentServiceRole s;
     assetManagementBucket := assetManagementBucket s |}.

Definition set_agentServiceRole (r : option string) (s : State) : State :=
  {| env := env s; uuid_source := uuid_source s; uuid_drawn := uuid_drawn s;
     mkdtemp_source := mkdtemp_source s; mkdtemp_drawn := mkdtemp_drawn s;
     tmpdir := tmpdir s; fs := fs s; children := children s;
     permissions := permissions s;
     agent := agent s; agentDefinition := agentDefinition s;
     agentServiceRole := r;
     assetManagementBucket := assetManagementBucket s |}.

Definition set_assetManagementBucket (b : option string) (s : State) : State :=
  {| env := env s; uuid_source := uuid_source s; uuid_drawn := uuid_drawn s;
     mkdtemp_source := mkdtemp_source s; mkdtemp_drawn := mkdtemp_drawn s;
     tmpdir := tmpdir s; fs := fs s; children := children s;
     permissions := permissions s;
     agent := agent s; agentDefinition := agentDefinition s;
     agentServiceRole := agentServiceRole s;
     assetManagementBucket := b |}.

(** ** The monad: state and exceptions *)

(** The exceptions of the construct: an [Error] or a [TypeError] with its
    message, and the [Error] with which a construct refuses an id that a
    sibling already has (There is already a Construct with name, followed by
    the id and the scope). *)
Inductive JsError :=
| Error (message : string)
| TypeError (message : string)
| NameTaken (id : string).

Inductive Result (A : Type) :=
| Ok (a : A) (s : State)
| Thrown (e : JsError) (s : State).
Arguments Ok {A} a s.
Arguments Thrown {A} e s.

Definition M (A : Type) : Type := State → Result A.

#[export] Instance M_ret : MRet M := λ A a s, Ok a s.

#[export] Instance M_bind : MBind M := λ A B f m s,
  match m s with
  | Ok a s' => f a s'
  | Thrown e s' => Thrown e s'
  end.

Definition throw {A : Type} (e : JsError) : M A := λ s, Thrown e s.
Definition get : M State := λ s, Ok s s.
Definition modify (f : State → State) : M unit := λ s, Ok tt (f s).

(** The state a computation stops in, whether it returned or threw. *)
Definition final {A : Type} (r : Result A) : State :=
  match r with
  | Ok _ s => s
  | Thrown _ s => s
  end.

(** Whether a computation returned. *)
Definition returned {A : Type} (r : Result A) : bool :=
  match r with
  | Ok _ _ => true
  | Thrown _ _ => false
  end.

(** [Array.prototype.map] with an effectful callback, left to right. *)
Fixpoint mapM {A B : Type} (f : A → M B) (l : list A) : M (list B) :=
  match l with
  | [] => mret []
  | x :: l' => y ← f x; ys ← mapM f l'; mret (y :: ys)
  end.

(** [Array.prototype.forEach]. *)
Fixpoint forEach {A : Type} (f : A → M unit) (l : list A) : M unit :=
  match l with
  | [] => mret tt
  | x :: l' => f x;; forEach f l'
  end.

(** ** Collaborators *)

(** [uuidv4()]: the next value of the random source. *)
Definition uuidv4 : M string := λ s,
  Ok (uuid_source s (uuid_drawn s)) (set_uuid_drawn (S (uuid_drawn s)) s).

(** [new C(this, id, props)]: the child registers under [this]; the ids of
    the children of a construct are distinct, and a taken id throws. *)
Definition declare (id : string) (r : Resource) : M unit := λ s,
  if bool_decide (id ∈ (children s).*1)
  then Thrown (NameTaken id) s
  else Ok tt (set_children (children s ++ [(id, r)]) s).

Definition addToPolicyAt (id : string) (st : Iam.PolicyStatement)
    (c : string * Resource) : string * Resource :=
  match c with
  | (i, RRole r) => if decide (i = id) then (i, RRole (Iam.addToPolicy st r)) else c
  | _ => c
  end.

(** [role.addToPolicy(statement)] on the role declared under [id]. *)
Definition addToPolicy (id : string) (st : Iam.PolicyStatement) : M unit :=
  modify (λ s, set_children (addToPolicyAt id st <$> children s) s).

(** [func.addPermission(name, permission)]. *)
Definition addPermission (f : Lambda.Function) (name : string)
    (p : Lambda.Permission) : M unit :=
  modify (λ s, set_permissions (permissions s ++ [(f, (name, p))]) s).

(** [mkdtempSync(prefix)]: a new empty directory named by the prefix and a
    random suffix, the one the operating system has chosen. *)
Definition mkdtempSync (prefix : string) : M string := λ s,
  let dir := prefix +:+ mkdtemp_source s (mkdtemp_drawn s) in
  Ok dir (set_fs (<[dir := ∅]> (fs s)) (set_mkdtemp_drawn (S (mkdtemp_drawn s)) s)).

(** [join(tmpdir(), name)] *)
Definition join_tmpdir (name : string) : M string := λ s,
  Ok (tmpdir s +:+ "/" +:+ name) s.

(** Modelled from the spec: [writeFilesToDir] of
    ./constructs/utilities/utils is not part of the source at hand; the
    named byte buffers are written as files of the directory. *)
Definition writeFilesToDir (dir : string) (files : FileBufferMap) : M unit :=
  modify (λ s, set_fs (<[dir := files ∪ default ∅ (fs s !! dir)]> (fs s)) s).

Definition bedrock_principal (conds : list Iam.Condition) : Iam.ServicePrincipal :=
  {| Iam.service := "bedrock.amazonaws.com"; Iam.principalConditions := conds |}.

(** ** The construct's methods, in the order of the source *)

(** [setupIAMRole] *)
Definition setupIAMRole : M string :=
  s ← get;
  let region := env s !! "CDK_DEFAULT_REGION" in
  let accountId := env s !! "CDK_DEFAULT_ACCOUNT" in
  u ← uuidv4;
  let bedrockServiceRole := "BedrockServiceRole" in
  declare bedrockServiceRole (RRole
    {| Iam.assumedBy := bedrock_principal
         [ {| Iam.operator := "StringEquals";
              Iam.key := "aws:SourceAccount";
              Iam.value := accountId |} ];
       Iam.roleName := "AmazonBedrockExecutionRoleForAgents_" +:+ slice0 12 u;
       Iam.description := "Service role for Amazon Bedrock";
       Iam.policy := [] |});;
  s ← get;
  let modelUsed := CfnAgent.foundationModel (agentDefinition s) in
  addToPolicy bedrockServiceRole
    {| Iam.sid := "AllowModelInvocationForOrchestration";
       Iam.effect := Iam.ALLOW;
       Iam.actions := ["bedrock:InvokeModel"];
       Iam.resources :=
         ["arn:aws:bedrock:" +:+ template region +:+ "::foundation-model/"
            +:+ template modelUsed];
       Iam.conditions := [] |};;
  modify (λ s, set_agentDefinition
    (CfnAgent.withRole (token bedrockServiceRole "Arn") (agentDefinition s)) s);;
  mret bedrockServiceRole.

(** [createBedrockAgent] *)
Definition createBedrockAgent : M unit :=
  s ← get;
  (if negb (truthy_string (CfnAgent.agentResourceRoleArn (agentDefinition s)))
   then r ← setupIAMRole; modify (set_agentServiceRole (Some r))
   else mret tt);;
  s ← get;
  let id := "AgentBlueprint-" +:+ CfnAgent.agentName (agentDefinition s) in
  declare id (RAgent (agentDefinition s));;
  modify (set_agent (Some id)).

(** [checkActionsRequireArtifacts] *)
Definition checkActionsRequireArtifacts
    (actionGroups : option (list AgentActionGroup)) : bool :=
  match actionGroups with
  | Some l => existsb (λ action, truthy_object (apiSchemaFile (schemaDefinition action))) l
  | None => false
  end.

(** [addSchemaAccessForAgents] *)
Definition addSchemaAccessForAgents (s3ArtifactArn : string) : M unit :=
  s ← get;
  match agentServiceRole s with
  | None => mret tt
  | Some role =>
      let accountId := env s !! "CDK_DEFAULT_ACCOUNT" in
      addToPolicy role
        {| Iam.sid := "AllowAccessToActionGroupAPISchemas";
           Iam.effect := Iam.ALLOW;
           Iam.actions := ["s3:GetObject"];
           Iam.resources := [s3ArtifactArn];
           Iam.conditions :=
             [ {| Iam.operator := "StringEquals";
                  Iam.key := "aws:ResourceAccount";
                  Iam.value := accountId |} ] |}
  end.

(** [setupS3Bucket] *)
Definition setupS3Bucket : M string :=
  u ← uuidv4;
  let id := "AgentBlueprintAssets-" +:+ slice0 12 u in
  declare id (RBucket
    {| S3.encryption := S3.S3_MANAGED;
       S3.blockPublicAccess := S3.BLOCK_ALL;
       S3.enforceSSL := true |});;
  mret id.

(** [new BucketDeployment(this, id, props)]: the construct registers under
    its id first; it then grants its handler access to the destination
    bucket, which throws when the bucket is undefined. *)
Definition newBucketDeployment (id : string) (d : S3.BucketDeployment) : M string :=
  declare id (RDeployment d);;
  match S3.destinationBucket d with
  | Some _ => mret id
  | None =>
      throw (TypeError "Cannot read properties of undefined (reading 'grantReadWrite')")
  end.

(** [deployAssetsToBucket]: the [finally] block of the source is empty (its
    only statement is commented out), so nothing runs between the [try]
    block and the return, nor when the block throws. *)
Definition deployAssetsToBucket (assetFiles : FileBufferMap) (prefix : string)
    : M string :=
  p ← join_tmpdir "cdk-";
  tempDir ← mkdtempSync p;
  writeFilesToDir tempDir assetFiles;;
  s ← get;
  bucketDeployment ← newBucketDeployment ("AssetDeployment-" +:+ prefix)
    {| S3.sources := [tempDir];
       S3.destinationBucket := assetManagementBucket s;
       S3.destinationKeyPrefix := prefix |};
  mret bucketDeployment.

(** [uploadSchemaToS3] *)
Definition uploadSchemaToS3 (schemaFile : option Buffer) (actionGroupName : string)
    : M CfnAgent.S3IdentifierProperty :=
  match schemaFile with
  | None => mret {| CfnAgent.s3BucketName := None; CfnAgent.s3ObjectKey := None |}
  | Some file =>
      let fileBufferMap : FileBufferMap :=
        {[ "OpenAPISchema_" +:+ actionGroupName +:+ ".json" := file ]} in
      deploymentInfo ← deployAssetsToBucket fileBufferMap actionGroupName;
      addSchemaAccessForAgents
        (token deploymentInfo "DestinationBucketArn" +:+ "/" +:+ actionGroupName);;
      mret {| CfnAgent.s3BucketName := Some (token deploymentInfo "DestinationBucketName");
              CfnAgent.s3ObjectKey := Some (token deploymentInfo "SourceObjectKeys[0]") |}
  end.

(** What [getApiSchema] returns: an object with an [apiSchema] key or a
    [functionSchema] key, spread into the action-group fragment. *)
Record SchemaFragment := {
  frag_apiSchema : option CfnAgent.APISchemaProperty;
  frag_functionSchema : option CfnAgent.FunctionSchemaProperty
}.

Definition no_schema_message : string :=
  "OpenAPI schema or functionDefinition schema required for creating action group".

(** [getApiSchema] *)
Definition getApiSchema (schemaDefinition : SchemaDefinition) (actionGroupName : string)
    : M SchemaFragment :=
  if truthy_string (inlineAPISchema schemaDefinition) then
    mret {| frag_apiSchema := Some
              {| CfnAgent.payload := inlineAPISchema schemaDefinition;
                 CfnAgent.s3 := None |};
            frag_functionSchema := None |}
  else if truthy_object (apiSchemaFile schemaDefinition) then
    loc ← uploadSchemaToS3 (apiSchemaFile schemaDefinition) actionGroupName;
    mret {| frag_apiSchema := Some
              {| CfnAgent.payload := None; CfnAgent.s3 := Some loc |};
            frag_functionSchema := None |}
  else if truthy_object (functionSchema schemaDefinition) then
    mret {| frag_apiSchema := None;
            frag_functionSchema := functionSchema schemaDefinition |}
  else throw (Error no_schema_message).

(** The callback of [actionGroups.map] in [associateActionGroupInfo]. *)
Definition actionGroupProperty (action : AgentActionGroup)
    : M CfnAgent.AgentActionGroupProperty :=
  f ← getApiSchema (schemaDefinition action) (actionGroupName action);
  mret {| CfnAgent.actionGroupName := actionGroupName action;
          CfnAgent.actionGroupExecutor := getActionExecutor action;
          CfnAgent.description := description action;
          CfnAgent.actionGroupState := actionGroupState action;
          CfnAgent.apiSchema := frag_apiSchema f;
          CfnAgent.functionSchema := frag_functionSchema f |}.

(** [associateActionGroupInfo] *)
Definition associateActionGroupInfo (actionGroups : option (list AgentActionGroup))
    : M unit :=
  match actionGroups with
  | None => mret tt
  | Some l =>
      agentActionGroups ← mapM actionGroupProperty l;
      s ← get;
      let existingActions := default [] (CfnAgent.actionGroups (agentDefinition s)) in
      modify (set_agentDefinition
        (CfnAgent.withActionGroups (existingActions ++ agentActionGroups)
           (agentDefinition s)))
  end.

(** The callback of [actionGroups.forEach] in [addResourcePolicyForActions]:
    with [?.] the arguments of [addPermission], among them
    [this.agent.attrAgentArn], are evaluated only when [lambdaFunc] is
    defined. *)
Definition grantInvocation (action : AgentActionGroup) : M unit :=
  u ← uuidv4;
  let permissionName := "BedrockAgentInvokePermission-" +:+ slice0 12 u in
  match lambdaFunc action with
  | None => mret tt
  | Some f =>
      s ← get;
      match agent s with
      | None => throw (TypeError "Cannot read properties of undefined (reading 'attrAgentArn')")
      | Some a =>
          addPermission f permissionName
            {| Lambda.action := "lambda:InvokeFunction";
               Lambda.principal := bedrock_principal [];
               Lambda.sourceArn := token a "AgentArn" |}
      end
  end.

(** [addResourcePolicyForActions] *)
Definition addResourcePolicyForActions (actionGroups : option (list AgentActionGroup))
    : M unit :=
  match actionGroups with
  | None => mret tt
  | Some l => forEach grantInvocation l
  end.

(** The constructor *)
Definition constructor (props : BedrockAgentBlueprintsConstructProps) : M unit :=
  modify (set_agentDefinition (props_agentDefinition props));;
  (if checkActionsRequireArtifacts (props_actionGroups props)
   then b ← setupS3Bucket; modify (set_assetManagementBucket (Some b))
   else mret tt);;
  associateActionGroupInfo (props_actionGroups props);;
  createBedrockAgent;;
  addResourcePolicyForActions (props_actionGroups props).

(** The state in which [new BedrockAgentBlueprintsConstruct(scope, id, props)]
    starts: the process as it is, no child declared, no field of [this]
    set. *)
Record Process := {
  p_env : gmap string string;
  p_uuid_source : nat → string;
  p_mkdtemp_source : nat → string;
  p_tmpdir : string;
  p_fs : gmap string FileBufferMap;
  p_permissions : list (Lambda.Function * (string * Lambda.Permission))
}.

Definition start (p : Process) (props : BedrockAgentBlueprintsConstructProps) : State :=
  {| env := p_env p; uuid_source := p_uuid_source p; uuid_drawn := 0;
     mkdtemp_source := p_mkdtemp_source p; mkdtemp_drawn := 0;
     tmpdir := p_tmpdir p; fs := p_fs p; children := [];
     permissions := p_permissions p;
     agent := None; agentDefinition := props_agentDefinition props;
     agentServiceRole := None; assetManagementBucket := None |}.

(** [new BedrockAgentBlueprintsConstruct(scope, id, props)] *)
Definition new_construct (p : Process) (props : BedrockAgentBlueprintsConstructProps)
    : Result unit :=
  constructor props (start p props).

(** ** Reading the construct tree *)

Definition as_bucket (c : string * Resource) : option (string * S3.Bucket) :=
  match c with (i, RBucket b) => Some (i, b) | _ => None end.
Definition as_role (c : string * Resource) : option (string * Iam.Role) :=
  match c with (i, RRole r) => Some (i, r) | _ => None end.
Definition as_deployment (c : string * Resource) : option (string * S3.BucketDeployment) :=
  match c with (i, RDeployment d) => Some (i, d) | _ => None end.
Definition as_agent (c : string * Resource) : option (string * CfnAgent.Props) :=
  match c with (i, RAgent a) => Some (i, a) | _ => None end.

Definition buckets (c : list (string * Resource)) := omap as_bucket c.
Definition roles (c : list (string * Resource)) := omap as_role c.
Definition deployments (c : list (string * Resource)) := omap as_deployment c.
Definition agents (c : list (string * Resource)) := omap as_agent c.

(** An artifact-read grant: a statement that allows [s3:GetObject]. *)
Definition is_artifact_read (st : Iam.PolicyStatement) : bool :=
  bool_decide ("s3:GetObject" ∈ Iam.actions st).

(** The artifact-read grants held by the roles of the tree. *)
Definition artifact_read_grants (c : list (string * Resource))
    : list Iam.PolicyStatement :=
  r ← roles c; List.filter is_artifact_read (Iam.policy r.2).

(** ** Schema specifications *)

(** A variant counts as populated when the source's test on it succeeds:
    a non-empty inline document, a file buffer, a function schema. *)
Definition has_inline (sd : SchemaDefinition) : bool := truthy_string (inlineAPISchema sd).
Definition has_file (sd : SchemaDefinition) : bool := truthy_object (apiSchemaFile sd).
Definition has_function (sd : SchemaDefinition) : bool := truthy_object (functionSchema sd).

Definition populated_variants (sd : SchemaDefinition) : nat :=
  Nat.b2n (has_inline sd) + Nat.b2n (has_file sd) + Nat.b2n (has_function sd).

(** The representations a resolved fragment carries: an inline payload, a
    storage location, a function schema. *)
Definition has_payload (f : SchemaFragment) : bool :=
  match frag_apiSchema f with
  | Some a => truthy_object (CfnAgent.payload a)
  | None => false
  end.
Definition has_location (f : SchemaFragment) : bool :=
  match frag_apiSchema f with
  | Some a => truthy_object (CfnAgent.s3 a)
  | None => false
  end.
Definition has_function_schema (f : SchemaFragment) : bool :=
  truthy_object (frag_functionSchema f).

Definition representations (f : SchemaFragment) : nat :=
  Nat.b2n (has_payload f) + Nat.b2n (has_location f) + Nat.b2n (has_function_schema f).

Definition inline_fragment (doc : option string) : SchemaFragment :=
  {| frag_apiSchema := Some {| CfnAgent.payload := doc; CfnAgent.s3 := None |};
     frag_functionSchema := None |}.
Definition location_fragment (loc : CfnAgent.S3IdentifierProperty) : SchemaFragment :=
  {| frag_apiSchema := Some {| CfnAgent.payload := None; CfnAgent.s3 := Some loc |};
     frag_functionSchema := None |}.
Definition function_fragment (fn : option CfnAgent.FunctionSchemaProperty) : SchemaFragment :=
  {| frag_apiSchema := None; frag_functionSchema := fn |}.

(** ** What a publication may change

    [publication s s'] relates the states before and after any number of
    schema resolutions: only the file system, the count of temporary names
    drawn and the construct tree move, and while no role has been
    synthesized the tree only grows by deployments. *)
Record publication (s s' : State) : Prop := {
  pub_env : env s' = env s;
  pub_uuid_source : uuid_source s' = uuid_source s;
  pub_uuid_drawn : uuid_drawn s' = uuid_drawn s;
  pub_mkdtemp_source : mkdtemp_source s' = mkdtemp_source s;
  pub_tmpdir : tmpdir s' = tmpdir s;
  pub_permissions : permissions s' = permissions s;
  pub_agent : agent s' = agent s;
  pub_agentDefinition : agentDefinition s' = agentDefinition s;
  pub_agentServiceRole : agentServiceRole s' = agentServiceRole s;
  pub_assetManagementBucket : assetManagementBucket s' = assetManagementBucket s;
  pub_fs : dom (fs s) ⊆ dom (fs s');
  pub_children :
    agentServiceRole s = None →
    ∃ ds, children s' = children s ++ ds
          ∧ buckets ds = [] ∧ roles ds = [] ∧ agents ds = []
          ∧ Forall (λ d, S3.destinationBucket d.2 = assetManagementBucket s)
              (deployments ds)
}.

(** ** Specifications of computations *)

(** A computation that returns from every state, with a result satisfying
    [Q] and a transition in [R]. *)
Definition returns {A : Type} (m : M A) (R : State → State → Prop) (Q : A → Prop)
    : Prop :=
  ∀ s, ∃ a s', m s = Ok a s' ∧ R s s' ∧ Q a.

(** A computation whose transition is in [R] whether it returns or throws. *)
Definition keeps {A : Type} (m : M A) (R : State → State → Prop) : Prop :=
  ∀ s, R s (final (m s)).

(** The directory [deployAssetsToBucket] stages the files in. *)
Definition staging_directory (s : State) : string :=
  (tmpdir s +:+ "/" +:+ "cdk-") +:+ mkdtemp_source s (mkdtemp_drawn s).

(** The location descriptor of the artifact published for an action group. *)
Definition published_location (actionGroupName : string) : CfnAgent.S3IdentifierProperty :=
  {| CfnAgent.s3BucketName :=
       Some (token ("AssetDeployment-" +:+ actionGroupName) "DestinationBucketName");
     CfnAgent.s3ObjectKey :=
       Some (token ("AssetDeployment-" +:+ actionGroupName) "SourceObjectKeys[0]") |}.


(** ** Capability specifications and fragments *)

(** A specification the resolver accepts: some variant is populated. *)
Definition resolvable (a : AgentActionGroup) : Prop :=
  0 < populated_variants (schemaDefinition a).

(** A batch is well formed when each of its specifications is resolvable;
    an absent batch is. *)
Definition well_formed_batch (l : option (list AgentActionGroup)) : Prop :=
  match l with
  | Some l => Forall resolvable l
  | None => True
  end.

(** ** The execution role and the grants *)

Definition model_invocation_statement (region model : option string)
    : Iam.PolicyStatement :=
  {| Iam.sid := "AllowModelInvocationForOrchestration";
     Iam.effect := Iam.ALLOW;
     Iam.actions := ["bedrock:InvokeModel"];
     Iam.resources :=
       ["arn:aws:bedrock:" +:+ template region +:+ "::foundation-model/"
          +:+ template model];
     Iam.conditions := [] |}.

Definition account_condition (key : string) (account : option string) : Iam.Condition :=
  {| Iam.operator := "StringEquals"; Iam.key := key; Iam.value := account |}.

(** The role [setupIAMRole] declares, with the statements [policy]. *)
Definition execution_role (account : option string) (uuid : string)
    (policy : list Iam.PolicyStatement) : Iam.Role :=
  {| Iam.assumedBy := bedrock_principal [account_condition "aws:SourceAccount" account];
     Iam.roleName := "AmazonBedrockExecutionRoleForAgents_" +:+ slice0 12 uuid;
     Iam.description := "Service role for Amazon Bedrock";
     Iam.policy := policy |}.

(** The permission [addResourcePolicyForActions] adds for the agent [a]. *)
Definition invocation_grant (a : string) : Lambda.Permission :=
  {| Lambda.action := "lambda:InvokeFunction";
     Lambda.principal := bedrock_principal [];
     Lambda.sourceArn := token a "AgentArn" |}.

(** The store [setupS3Bucket] declares. *)
Definition artifact_store : S3.Bucket :=
  {| S3.encryption := S3.S3_MANAGED;
     S3.blockPublicAccess := S3.BLOCK_ALL;
     S3.enforceSSL := true |}.

(** ** What trust wiring may change

    [wiring s s'] relates the states before and after
    [addResourcePolicyForActions]: only the permissions of the caller's
    functions and the count of identifiers drawn move. *)
Record wiring (s s' : State) : Prop := {
  wir_env : env s' = env s;
  wir_uuid_source : uuid_source s' = uuid_source s;
  wir_mkdtemp_source : mkdtemp_source s' = mkdtemp_source s;
  wir_mkdtemp_drawn : mkdtemp_drawn s' = mkdtemp_drawn s;
  wir_tmpdir : tmpdir s' = tmpdir s;
  wir_fs : fs s' = fs s;
  wir_children : children s' = children s;
  wir_agent : agent s' = agent s;
  wir_agentDefinition : agentDefinition s' = agentDefinition s;
  wir_agentServiceRole : agentServiceRole s' = agentServiceRole s;
  wir_assetManagementBucket : assetManagementBucket s' = assetManagementBucket s
}.

(** ** The declarations of an assembly *)

(** The store the constructor declares first, when the batch needs one. *)
Definition declared_store (p : Process) (props : BedrockAgentBlueprintsConstructProps)
    : list (string * Resource) :=
  if checkActionsRequireArtifacts (props_actionGroups props)
  then [("AgentBlueprintAssets-" +:+ slice0 12 (p_uuid_source p 0), RBucket artifact_store)]
  else [].

(** The role the constructor declares when the definition names none; its
    name uses the identifier drawn after the store's. *)
Definition declared_role (p : Process) (props : BedrockAgentBlueprintsConstructProps)
    : list (string * Resource) :=
  if truthy_string (CfnAgent.agentResourceRoleArn (props_agentDefinition props))
  then []
  else [("BedrockServiceRole",
         RRole (execution_role (p_env p !! "CDK_DEFAULT_ACCOUNT")
                  (p_uuid_source p
                     (if checkActionsRequireArtifacts (props_actionGroups props)
                      then 1 else 0))
                  [model_invocation_statement (p_env p !! "CDK_DEFAULT_REGION")
                     (CfnAgent.foundationModel (props_agentDefinition props))]))].

(** The role reference of the final definition. *)
Definition final_role (d : CfnAgent.Props) : option string :=
  if truthy_string (CfnAgent.agentResourceRoleArn d)
  then CfnAgent.agentResourceRoleArn d
  else Some (token "BedrockServiceRole" "Arn").

(** The action groups of the final definition, given the fragments built. *)
Definition final_actionGroups (d : CfnAgent.Props)
    (batch : option (list AgentActionGroup))
    (frags : list CfnAgent.AgentActionGroupProperty)
    : option (list CfnAgent.AgentActionGroupProperty) :=
  match batch with
  | Some _ => Some (default [] (CfnAgent.actionGroups d) ++ frags)
  | None => CfnAgent.actionGroups d
  end.

Definition batch_list (batch : option (list AgentActionGroup)) : list AgentActionGroup :=
  default [] batch.

(** The id under which the agent is declared. *)
Definition agent_id (d : CfnAgent.Props) : string :=
  "AgentBlueprint-" +:+ CfnAgent.agentName d.

(** The state after the store has been decided. *)
Definition after_store (p : Process) (props : BedrockAgentBlueprintsConstructProps)
    : State :=
  let s := start p props in
  if checkActionsRequireArtifacts (props_actionGroups props)
  then set_assetManagementBucket
         (Some ("AgentBlueprintAssets-" +:+ slice0 12 (p_uuid_source p 0)))
         (set_children (declared_store p props) (set_uuid_drawn 1 s))
  else s.

(** A batch needs the store when one of its specifications has a file. *)
Definition needs_store (batch : option (list AgentActionGroup)) : Prop :=
  ∃ l a, batch = Some l ∧ a ∈ l ∧ is_Some (apiSchemaFile (schemaDefinition a)).


(** ** The assembler as a function of the batch

    What [associateActionGroupInfo] builds and declares, written as plain
    functions of the specifications, to compare the methods with. *)

(** A specification whose resolution takes the file branch. *)
Definition publishes (a : AgentActionGroup) : bool :=
  negb (has_inline (schemaDefinition a)) && has_file (schemaDefinition a).

(** The name under which [uploadSchemaToS3] stages the schema file. *)
Definition schema_file_name (name : string) : string :=
  "OpenAPISchema_" +:+ name +:+ ".json".

(** The fragment built for a specification. *)
Definition fragment_of (a : AgentActionGroup) : CfnAgent.AgentActionGroupProperty :=
  let sd := schemaDefinition a in
  {| CfnAgent.actionGroupName := actionGroupName a;
     CfnAgent.actionGroupExecutor := getActionExecutor a;
     CfnAgent.description := description a;
     CfnAgent.actionGroupState := actionGroupState a;
     CfnAgent.apiSchema :=
       if has_inline sd then
         Some {| CfnAgent.payload := inlineAPISchema sd; CfnAgent.s3 := None |}
       else if has_file sd then
         Some {| CfnAgent.payload := None;
                 CfnAgent.s3 := Some (published_location (actionGroupName a)) |}
       else None;
     CfnAgent.functionSchema :=
       if has_inline sd || has_file sd then None else functionSchema sd |}.

(** The deployment declared for the action group [name], from the staging
    directory [dir] into [bucket]. *)
Definition deployment_of (bucket : option string) (dir name : string)
    : string * S3.BucketDeployment :=
  ("AssetDeployment-" +:+ name,
   {| S3.sources := [dir];
      S3.destinationBucket := bucket;
      S3.destinationKeyPrefix := name |}).

Definition as_child (d : string * S3.BucketDeployment) : string * Resource :=
  (d.1, RDeployment d.2).

(** The state after the schema file of [a] has been published, before any
    role exists. *)
Definition staged (a : AgentActionGroup) (s : State) : State :=
  match apiSchemaFile (schemaDefinition a) with
  | Some file =>
      set_children
        (children s ++
           [as_child (deployment_of (assetManagementBucket s) (staging_directory s)
                        (actionGroupName a))])
        (set_fs (<[staging_directory s :=
                     {[ schema_file_name (actionGroupName a) := file ]}]> (fs s))
           (set_mkdtemp_drawn (S (mkdtemp_drawn s)) s))
  | None => s
  end.

(** The state after the publications of a list of specifications. *)
Fixpoint publications (l : list AgentActionGroup) (s : State) : State :=
  match l with
  | [] => s
  | a :: l' => publications l' (if publishes a then staged a s else s)
  end.

(** The deployments of a list of specifications: one per specification that
    publishes, in order, the [n]-th temporary name going to the first. *)
Fixpoint planned_deployments (bucket : option string) (tmp : string)
    (source : nat → string) (n : nat) (l : list AgentActionGroup)
    : list (string * S3.BucketDeployment) :=
  match l with
  | [] => []
  | a :: l' =>
      if publishes a then
        deployment_of bucket ((tmp +:+ "/" +:+ "cdk-") +:+ source n) (actionGroupName a)
          :: planned_deployments bucket tmp source (S n) l'
      else planned_deployments bucket tmp source n l'
  end.

(** The identifier of the store, when one is declared. *)
Definition store_id (p : Process) (props : BedrockAgentBlueprintsConstructProps)
    : option string :=
  if checkActionsRequireArtifacts (props_actionGroups props)
  then Some ("AgentBlueprintAssets-" +:+ slice0 12 (p_uuid_source p 0))
  else None.

(** The definition the agent is declared with. *)
Definition final_definition (props : BedrockAgentBlueprintsConstructProps)
    : CfnAgent.Props :=
  let d := props_agentDefinition props in
  {| CfnAgent.agentName := CfnAgent.agentName d;
     CfnAgent.foundationModel := CfnAgent.foundationModel d;
     CfnAgent.agentResourceRoleArn := final_role d;
     CfnAgent.instruction := CfnAgent.instruction d;
     CfnAgent.actionGroups :=
       final_actionGroups d (props_actionGroups props)
         (fragment_of <$> batch_list (props_actionGroups props)) |}.

(** The permissions [addResourcePolicyForActions] adds for the agent [a]:
    one per specification with a backing function; every specification
    takes the next identifier, the [n]-th going to the first. *)
Fixpoint planned_grants (a : string) (source : nat → string) (n : nat)
    (l : list AgentActionGroup)
    : list (Lambda.Function * (string * Lambda.Permission)) :=
  match l with
  | [] => []
  | x :: l' =>
      match lambdaFunc x with
      | Some f =>
          [(f, ("BedrockAgentInvokePermission-" +:+ slice0 12 (source n),
                invocation_grant a))]
      | None => []
      end ++ planned_grants a source (S n) l'
  end.

(** The number of identifiers drawn before trust wiring: one for the store
    if declared, one for the role if synthesized. *)
Definition draws_before_wiring (props : BedrockAgentBlueprintsConstructProps) : nat :=
  (if checkActionsRequireArtifacts (props_actionGroups props) then 1 else 0)
  + (if truthy_string (CfnAgent.agentResourceRoleArn (props_agentDefinition props))
     then 0 else 1).

(** The artifact-read statement of [addSchemaAccessForAgents]. *)
Definition artifact_read_statement (arn : string) (account : option string)
    : Iam.PolicyStatement :=
  {| Iam.sid := "AllowAccessToActionGroupAPISchemas";
     Iam.effect := Iam.ALLOW;
     Iam.actions := ["s3:GetObject"];
     Iam.resources := [arn];
     Iam.conditions := [account_condition "aws:ResourceAccount" account] |}.

(** The specifications that have a file reference. *)
Definition with_file (a : AgentActionGroup) : bool := has_file (schemaDefinition a).

(** The names of the permissions in a list of grants. *)
Definition grant_names (g : list (Lambda.Function * (string * Lambda.Permission)))
    : list string :=
  (λ x, x.2.1) <$> g.


(** The deployment [d] publishes the schema file of the specification [a]
    from a directory that, in the file system [f], holds that file and
    nothing else. *)
Definition staged_in (f : gmap string FileBufferMap) (a : AgentActionGroup)
    (d : string * S3.BucketDeployment) : Prop :=
  ∃ file dir,
    apiSchemaFile (schemaDefinition a) = Some file
    ∧ S3.sources d.2 = [dir]
    ∧ f !! dir = Some {[ schema_file_name (actionGroupName a) := file ]}.

(** The temporary directories [mkdtempSync] creates for [n] publications,
    from the [k]-th draw on. *)
Definition staging_directories (tmp : string) (source : nat → string) (k n : nat)
    : list string :=
  (λ i, (tmp +:+ "/" +:+ "cdk-") +:+ source i) <$> seq k n.

(** ** Publications that can be made *)

(** The id of the deployment of an action group. *)
Definition deployment_id (name : string) : string := "AssetDeployment-" +:+ name.

(** A schema specification whose resolution takes the file branch. *)
Definition takes_file_branch (sd : SchemaDefinition) : bool :=
  negb (has_inline sd) && has_file sd.

(** The action group names of the specifications that publish a file. *)
Definition publication_names (l : list AgentActionGroup) : list string :=
  actionGroupName <$> filter publishes l.

(** The ids of the children of the construct. *)
Definition child_ids (s : State) : list string := (children s).*1.

(** A list of specifications can be assembled in the state [s] when every
    specification has a populated variant, those that publish a file have
    pairwise distinct names, none of which names a deployment already in the
    tree, and the store exists if there is a file to publish. *)
Definition can_assemble (s : State) (l : list AgentActionGroup) : Prop :=
  Forall resolvable l
  ∧ NoDup (publication_names l)
  ∧ Forall (λ n, deployment_id n ∉ child_ids s) (publication_names l)
  ∧ (publication_names l ≠ [] → is_Some (assetManagementBucket s)).

(** A state in which the schema of [a] can be resolved: if its file is to
    be published, the store exists and no deployment is declared under its
    name. *)
Definition can_publish (s : State) (a : AgentActionGroup) : Prop :=
  publishes a = true →
  is_Some (assetManagementBucket s)
  ∧ deployment_id (actionGroupName a) ∉ child_ids s.

(** The fragment [p] carries the name, executor, description and state of
    the specification [a], and the schema its resolution returns. *)
Definition carries (a : AgentActionGroup) (p : CfnAgent.AgentActionGroupProperty)
    : Prop :=
  CfnAgent.actionGroupName p = actionGroupName a
  ∧ CfnAgent.actionGroupExecutor p = getActionExecutor a
  ∧ CfnAgent.description p = description a
  ∧ CfnAgent.actionGroupState p = actionGroupState a
  ∧ ∃ f, (∀ s, can_publish s a →
            ∃ s', getApiSchema (schemaDefinition a) (actionGroupName a) s = Ok f s')
         ∧ CfnAgent.apiSchema p = frag_apiSchema f
         ∧ CfnAgent.functionSchema p = frag_functionSchema f.

(** A batch the constructor assembles to the end: every specification has a
    populated variant and those that publish a file have pairwise distinct
    names. *)
Definition assemblable (batch : option (list AgentActionGroup)) : Prop :=
  well_formed_batch batch ∧ NoDup (publication_names (batch_list batch)).

(** The state after [deployAssetsToBucket] has created its directory and
    written the files, before the deployment is declared. *)
Definition written (files : FileBufferMap) (s : State) : State :=
  set_fs (<[staging_directory s := files]> (fs s))
    (set_mkdtemp_drawn (S (mkdtemp_drawn s)) s).

(** The state after the schema file [file] has been published for the
    action group [name]: the directory written, the deployment declared, and
    the artifact-read statement added to the role if one has been
    synthesized. *)
Definition published (file : Buffer) (name : string) (s : State) : State :=
  let s1 :=
    set_children
      (children s ++
         [as_child (deployment_of (assetManagementBucket s) (staging_directory s) name)])
      (written {[ schema_file_name name := file ]} s) in
  match agentServiceRole s with
  | Some role =>
      set_children
        (addToPolicyAt role
           (artifact_read_statement
              (token (deployment_id name) "DestinationBucketArn" +:+ "/" +:+ name)
              (env s !! "CDK_DEFAULT_ACCOUNT"))
         <$> children s1) s1
  | None => s1
  end.

(** ** Sample inputs

    The batch of the first scenario: an inline schema and a file schema, no
    backing function, no caller-supplied role; and variations of it. *)

Definition ex_inline : SchemaDefinition :=
  {| inlineAPISchema := Some "{type: inline}";
     apiSchemaFile := None;
     functionSchema := None |}.

Definition ex_file : SchemaDefinition :=
  {| inlineAPISchema := None;
     apiSchemaFile := Some [Byte.x6f; Byte.x70; Byte.x65; Byte.x6e];
     functionSchema := None |}.

Definition ex_function : SchemaDefinition :=
  {| inlineAPISchema := None;
     apiSchemaFile := None;
     functionSchema := Some
       {| CfnAgent.functions :=
            [ {| CfnAgent.name := "lookup";
                 CfnAgent.functionDescription := None |} ] |} |}.

Definition ex_nothing : SchemaDefinition :=
  {| inlineAPISchema := None; apiSchemaFile := None; functionSchema := None |}.

(** All three variants at once. *)
Definition ex_all : SchemaDefinition :=
  {| inlineAPISchema := inlineAPISchema ex_inline;
     apiSchemaFile := apiSchemaFile ex_file;
     functionSchema := functionSchema ex_function |}.

(** A file and a function schema, no inline document. *)
Definition ex_file_and_function : SchemaDefinition :=
  {| inlineAPISchema := None;
     apiSchemaFile := apiSchemaFile ex_file;
     functionSchema := functionSchema ex_function |}.

(** An inline document that is the empty string. *)
Definition ex_empty_inline : SchemaDefinition :=
  {| inlineAPISchema := Some EmptyString;
     apiSchemaFile := None;
     functionSchema := None |}.

Definition ex_group (name : string) (sd : SchemaDefinition)
    (f : option Lambda.Function) : AgentActionGroup :=
  {| actionGroupName := name;
     description := Some "sample capability";
     actionGroupState := Some "ENABLED";
     schemaDefinition := sd;
     lambdaFunc := f;
     getActionExecutor :=
       match f with
       | Some fn => Some {| CfnAgent.lambda := Some (token (Lambda.functionId fn) "Arn");
                            CfnAgent.customControl := None |}
       | None => None
       end |}.

Definition ex_ping : AgentActionGroup := ex_group "ping" ex_inline None.
Definition ex_files : AgentActionGroup := ex_group "files" ex_file None.
Definition ex_lookup : AgentActionGroup :=
  ex_group "lookup" ex_function (Some {| Lambda.functionId := "LookupFn" |}).

Definition ex_definition (role : option string) : CfnAgent.Props :=
  {| CfnAgent.agentName := "helper";
     CfnAgent.foundationModel := Some "anthropic.claude-v2";
     CfnAgent.agentResourceRoleArn := role;
     CfnAgent.instruction := Some "Answer briefly.";
     CfnAgent.actionGroups := None |}.

Definition ex_process (environment : gmap string string) : Process :=
  {| p_env := environment;
     p_uuid_source := λ n, "0f8fad5b-d9cb-469f-a165-70867728950e";
     p_mkdtemp_source := λ n, "a1B2c3";
     p_tmpdir := "/tmp";
     p_fs := ∅;
     p_permissions := [] |}.

Definition ex_env : gmap string string :=
  {[ "CDK_DEFAULT_REGION" := "us-east-1";
     "CDK_DEFAULT_ACCOUNT" := "111122223333" ]}.

Definition ex_props (role : option string) (l : option (list AgentActionGroup))
    : BedrockAgentBlueprintsConstructProps :=
  {| props_agentDefinition := ex_definition role; props_actionGroups := l |}.

Definition ex_state : State := start (ex_process ex_env) (ex_props None None).

(** A batch with a specification the resolver rejects. *)
Definition ex_broken : AgentActionGroup := ex_group "broken" ex_nothing None.

(** A process whose random sources give a different value at each draw. *)
Definition ex_fresh_process : Process :=
  {| p_env := ex_env;
     p_uuid_source :=
       λ n, String (Ascii.ascii_of_nat (97 + n)) "f8fad5b-d9cb-469f-a165-70867728950e";
     p_mkdtemp_source := λ n, "a1B2c" +:+ String (Ascii.ascii_of_nat (97 + n)) EmptyString;
     p_tmpdir := "/tmp";
     p_fs := ∅;
     p_permissions := [] |}.

(** A second specification under the name of [ex_files]. *)
Definition ex_files_again : AgentActionGroup :=
  ex_group "files" ex_file_and_function None.

(** The state of the constructor once the store is declared, for a batch
    with a file. *)
Definition ex_store_state : State :=
  after_store ex_fresh_process (ex_props None (Some [ex_files])).

(** The same once the schema file of [ex_files] has been published. *)
Definition ex_published_state : State := staged ex_files ex_store_state.
(** * Theorems *)

#[export] Instance publication_refl : Reflexive publication.
Proof.
  intros s. split; try done.
  intros _. exists []. rewrite app_nil_r. repeat split; constructor.
Qed.

#[export] Instance publication_trans : Transitive publication.
Proof.
  intros s1 s2 s3 H12 H23. split; try (destruct H12, H23; congruence).
  - etrans; [apply (pub_fs _ _ H12) | apply (pub_fs _ _ H23)].
  - intros Hr.
    destruct (pub_children _ _ H12 Hr) as (ds1 & E1 & B1 & R1 & A1 & D1).
    destruct (pub_children _ _ H23) as (ds2 & E2 & B2 & R2 & A2 & D2).
    { by rewrite (pub_agentServiceRole _ _ H12). }
    exists (ds1 ++ ds2). rewrite E2, E1, <- app_assoc.
    unfold buckets, roles, agents, deployments in *.
    rewrite !omap_app, B1, B2, R1, R2, A1, A2. repeat split; try done.
    apply Forall_app. split; [done|].
    by rewrite <- (pub_assetManagementBucket _ _ H12).
Qed.

#[export] Instance wiring_refl : Reflexive wiring.
Proof. intros s. by split. Qed.

#[export] Instance wiring_trans : Transitive wiring.
Proof. intros s1 s2 s3 [] []. split; congruence. Qed.

(** A closed decidable fact, by evaluation. *)
Ltac decide_closed := apply (bool_decide_unpack _); vm_compute; exact I.

(** ** Running the monad *)

Lemma bind_Ok {A B : Type} (m : M A) (f : A → M B) s a s' :
  m s = Ok a s' → (m ≫= f) s = f a s'.
Proof. intros E. unfold mbind, M_bind. by rewrite E. Qed.

Lemma bind_Thrown {A B : Type} (m : M A) (f : A → M B) s e s' :
  m s = Thrown e s' → (m ≫= f) s = Thrown e s'.
Proof. intros E. unfold mbind, M_bind. by rewrite E. Qed.

Lemma keeps_ret {A : Type} (a : A) R `{!Reflexive R} : keeps (mret a) R.
Proof. intros s. simpl. done. Qed.

Lemma keeps_bind {A B : Type} (m : M A) (f : A → M B) R `{!Transitive R} :
  keeps m R → (∀ a, keeps (f a) R) → keeps (m ≫= f) R.
Proof.
  intros Hm Hf s. specialize (Hm s). unfold mbind, M_bind.
  destruct (m s) as [a s'|e s']; simpl in *; [|done].
  etrans; [exact Hm | apply Hf].
Qed.

Lemma returns_keeps {A : Type} (m : M A) R Q : returns m R Q → keeps m R.
Proof. intros H s. destruct (H s) as (a & s' & E & HR & _). by rewrite E. Qed.

Lemma mapM_keeps {A B : Type} (f : A → M B) R
    `{!Reflexive R, !Transitive R} (l : list A) :
  (∀ x, keeps (f x) R) → keeps (mapM f l) R.
Proof.
  intros Hf. induction l as [|x l IH]; simpl.
  - by apply keeps_ret.
  - apply keeps_bind; [done | apply Hf |]. intros y.
    apply keeps_bind; [done | apply IH |]. intros ys. by apply keeps_ret.
Qed.

Lemma forEach_keeps {A : Type} (f : A → M unit) R
    `{!Reflexive R, !Transitive R} (l : list A) :
  (∀ x, keeps (f x) R) → keeps (forEach f l) R.
Proof.
  intros Hf. induction l as [|x l IH]; simpl.
  - by apply keeps_ret.
  - apply keeps_bind; [done | apply Hf |]. intros _. apply IH.
Qed.

(** ** Declaring a child *)

Lemma declare_free id r s :
  id ∉ child_ids s →
  declare id r s = Ok tt (set_children (children s ++ [(id, r)]) s).
Proof. intros H. unfold declare, child_ids in *. by rewrite bool_decide_eq_false_2. Qed.

Lemma declare_taken id r s :
  id ∈ child_ids s → declare id r s = Thrown (NameTaken id) s.
Proof. intros H. unfold declare, child_ids in *. by rewrite bool_decide_eq_true_2. Qed.

(** ** The publisher *)

Lemma addToPolicyAt_ids id st c : (addToPolicyAt id st <$> c).*1 = c.*1.
Proof.
  induction c as [|[i r] c IH]; [done|]. rewrite !fmap_cons, IH. f_equal.
  unfold addToPolicyAt. destruct r; try done. by destruct (decide _).
Qed.

Lemma addSchemaAccessForAgents_run arn s :
  addSchemaAccessForAgents arn s
  = Ok tt
      match agentServiceRole s with
      | Some role =>
          set_children
            (addToPolicyAt role
               (artifact_read_statement arn (env s !! "CDK_DEFAULT_ACCOUNT"))
             <$> children s) s
      | None => s
      end.
Proof.
  unfold addSchemaAccessForAgents, mbind, M_bind, get.
  by destruct (agentServiceRole s).
Qed.

Lemma addSchemaAccessForAgents_publication arn :
  returns (addSchemaAccessForAgents arn) publication (λ _, True).
Proof.
  intros s. eexists tt, _. split; [apply addSchemaAccessForAgents_run|].
  split; [|done]. destruct (agentServiceRole s) as [role|] eqn:E; [|done].
  split; try done. simpl. congruence.
Qed.

(** Called once a role has been synthesized, [addSchemaAccessForAgents]
    appends the artifact-read statement to that role. *)
Lemma addSchemaAccessForAgents_with_role arn role s :
  agentServiceRole s = Some role →
  ∃ st, addSchemaAccessForAgents arn s
          = Ok tt (set_children (addToPolicyAt role st <$> children s) s)
        ∧ is_artifact_read st = true ∧ Iam.resources st = [arn].
Proof.
  intros E. eexists. split.
  - rewrite addSchemaAccessForAgents_run, E. reflexivity.
  - done.
Qed.

(** Before a role has been synthesized it does nothing. *)
Lemma addSchemaAccessForAgents_without_role arn s :
  agentServiceRole s = None → addSchemaAccessForAgents arn s = Ok tt s.
Proof. intros E. by rewrite addSchemaAccessForAgents_run, E. Qed.

(** What [deployAssetsToBucket] does, case by case: the directory is
    created and the files are written; then the deployment registers, unless
    its id is taken; then it fails unless the store exists. *)
Lemma deployAssetsToBucket_run files prefix s :
  deployAssetsToBucket files prefix s
  = if bool_decide (deployment_id prefix ∈ child_ids s)
    then Thrown (NameTaken (deployment_id prefix)) (written files s)
    else
      let s' :=
        set_children
          (children s ++
             [as_child (deployment_of (assetManagementBucket s) (staging_directory s)
                          prefix)])
          (written files s) in
      match assetManagementBucket s with
      | Some _ => Ok (deployment_id prefix) s'
      | None =>
          Thrown (TypeError "Cannot read properties of undefined (reading 'grantReadWrite')")
            s'
      end.
Proof.
  unfold deployAssetsToBucket, newBucketDeployment, mbind, M_bind, join_tmpdir,
    mkdtempSync, writeFilesToDir, modify, get, declare, mret, M_ret,
    written, child_ids, deployment_id, as_child, deployment_of.
  simpl. fold (staging_directory s).
  rewrite lookup_insert_eq, insert_insert_eq. simpl.
  case_bool_decide; [|destruct (assetManagementBucket s)];
    simpl; rewrite ?map_union_empty; reflexivity.
Qed.

Lemma written_publication files s : publication s (written files s).
Proof.
  split; try done.
  - simpl. rewrite dom_insert. set_solver.
  - intros _. exists []. rewrite app_nil_r. repeat split; constructor.
Qed.

Lemma deployAssetsToBucket_keeps files prefix :
  keeps (deployAssetsToBucket files prefix) publication.
Proof.
  intros s. rewrite deployAssetsToBucket_run.
  case_bool_decide; [apply written_publication|].
  assert (publication s
            (set_children
               (children s ++
                  [as_child (deployment_of (assetManagementBucket s)
                               (staging_directory s) prefix)])
               (written files s))) as Hpub.
  { split; try done; simpl.
    - rewrite dom_insert. set_solver.
    - intros _. eexists. split; [done|]. repeat split; try done.
      repeat constructor. }
  by destruct (assetManagementBucket s).
Qed.

Lemma uploadSchemaToS3_keeps file name :
  keeps (uploadSchemaToS3 file name) publication.
Proof.
  intros s. destruct file as [file|]; [|reflexivity]. unfold uploadSchemaToS3.
  pose proof (deployAssetsToBucket_keeps
                {[ "OpenAPISchema_" +:+ name +:+ ".json" := file ]} name s) as H1.
  destruct (deployAssetsToBucket _ name s) as [id s1|e s1] eqn:E1.
  - rewrite (bind_Ok _ _ _ _ _ E1).
    destruct (addSchemaAccessForAgents_publication
                (token id "DestinationBucketArn" +:+ "/" +:+ name) s1)
      as ([] & s2 & E2 & R2 & _).
    rewrite (bind_Ok _ _ _ _ _ E2). simpl in *. by etrans.
  - by rewrite (bind_Thrown _ _ _ _ _ E1).
Qed.

(** With the store in place and the id free, the upload returns. *)
Lemma uploadSchemaToS3_returns file name s :
  is_Some (assetManagementBucket s) →
  deployment_id name ∉ child_ids s →
  uploadSchemaToS3 (Some file) name s
  = Ok (published_location name) (published file name s).
Proof.
  intros [b Hb] Hfree. unfold uploadSchemaToS3, published.
  erewrite bind_Ok; [|rewrite deployAssetsToBucket_run;
                       rewrite bool_decide_eq_false_2 by done; by rewrite Hb].
  erewrite bind_Ok; [|apply addSchemaAccessForAgents_run].
  simpl. rewrite Hb. reflexivity.
Qed.

Lemma published_publication file name s : publication s (published file name s).
Proof.
  assert (publication s
            (set_children
               (children s ++
                  [as_child (deployment_of (assetManagementBucket s)
                               (staging_directory s) name)])
               (written {[ schema_file_name name := file ]} s))) as Hpub.
  { split; try done; simpl.
    - rewrite dom_insert. set_solver.
    - intros _. eexists. split; [done|]. repeat split; try done.
      repeat constructor. }
  unfold published. destruct (agentServiceRole s) as [role|] eqn:E; [|done].
  destruct Hpub. split; try done. simpl. congruence.
Qed.

Lemma published_ids file name s :
  child_ids (published file name s) = child_ids s ++ [deployment_id name].
Proof.
  unfold published, child_ids. destruct (agentServiceRole s); simpl;
    rewrite ?addToPolicyAt_ids, fmap_app; reflexivity.
Qed.

Lemma published_staged a file s :
  agentServiceRole s = None →
  apiSchemaFile (schemaDefinition a) = Some file →
  published file (actionGroupName a) s = staged a s.
Proof. intros Hr Hf. unfold published, staged, written. by rewrite Hr, Hf. Qed.

Lemma uploadSchemaToS3_run a file s :
  agentServiceRole s = None →
  apiSchemaFile (schemaDefinition a) = Some file →
  is_Some (assetManagementBucket s) →
  deployment_id (actionGroupName a) ∉ child_ids s →
  uploadSchemaToS3 (Some file) (actionGroupName a) s
  = Ok (published_location (actionGroupName a)) (staged a s).
Proof.
  intros Hr Hf Hb Hfree. rewrite uploadSchemaToS3_returns by done.
  by rewrite (published_staged a).
Qed.

(** The upload fails, with an error of the deployment, when the id is taken
    or the store is missing. *)
Lemma uploadSchemaToS3_fails file name s :
  assetManagementBucket s = None ∨ deployment_id name ∈ child_ids s →
  ∃ e s', uploadSchemaToS3 (Some file) name s = Thrown e s'
    ∧ e ≠ Error no_schema_message.
Proof.
  intros H. unfold uploadSchemaToS3.
  destruct (decide (deployment_id name ∈ child_ids s)) as [Hin|Hin].
  - eexists _, _. split.
    + apply bind_Thrown. rewrite deployAssetsToBucket_run.
      by rewrite bool_decide_eq_true_2.
    + by intros [=].
  - destruct H as [Hb|?]; [|done]. eexists _, _. split.
    + apply bind_Thrown. rewrite deployAssetsToBucket_run.
      rewrite bool_decide_eq_false_2 by done. by rewrite Hb.
    + done.
Qed.

(** ** The schema resolver *)

Lemma getApiSchema_inline sd name s :
  has_inline sd = true →
  getApiSchema sd name s = Ok (inline_fragment (inlineAPISchema sd)) s.
Proof. unfold getApiSchema, has_inline. intros ->. done. Qed.

Lemma getApiSchema_function sd name s :
  has_inline sd = false → has_file sd = false → has_function sd = true →
  getApiSchema sd name s = Ok (function_fragment (functionSchema sd)) s.
Proof. unfold getApiSchema, has_inline, has_file, has_function. by intros -> -> ->. Qed.

Lemma getApiSchema_none sd name s :
  populated_variants sd = 0 →
  getApiSchema sd name s = Thrown (Error no_schema_message) s.
Proof.
  unfold populated_variants, getApiSchema, has_inline, has_file, has_function.
  destruct (truthy_string _), (truthy_object (apiSchemaFile sd)),
    (truthy_object (functionSchema sd)); simpl; done.
Qed.

(** On the file branch the resolver is the upload. *)
Lemma getApiSchema_upload sd name s :
  takes_file_branch sd = true →
  getApiSchema sd name s
  = (loc ← uploadSchemaToS3 (apiSchemaFile sd) name; mret (location_fragment loc)) s
  ∧ is_Some (apiSchemaFile sd).
Proof.
  unfold takes_file_branch, getApiSchema, has_inline, has_file.
  destruct (truthy_string _); [done|].
  destruct (apiSchemaFile sd); [|done]. intros _. split; [done | by eexists].
Qed.

Lemma getApiSchema_file_run sd name s file :
  takes_file_branch sd = true →
  apiSchemaFile sd = Some file →
  is_Some (assetManagementBucket s) →
  deployment_id name ∉ child_ids s →
  getApiSchema sd name s
  = Ok (location_fragment (published_location name)) (published file name s).
Proof.
  intros Hb Hf Hs Hfree. destruct (getApiSchema_upload sd name s Hb) as [E _].
  rewrite E, Hf.
  by rewrite (bind_Ok _ _ _ _ _ (uploadSchemaToS3_returns file name s Hs Hfree)).
Qed.

Lemma getApiSchema_file sd name s :
  takes_file_branch sd = true →
  is_Some (assetManagementBucket s) →
  deployment_id name ∉ child_ids s →
  ∃ s', getApiSchema sd name s = Ok (location_fragment (published_location name)) s'
        ∧ publication s s'.
Proof.
  intros Hb Hs Hfree. destruct (getApiSchema_upload sd name s Hb) as [_ [file Hf]].
  exists (published file name s).
  split; [by apply getApiSchema_file_run | apply published_publication].
Qed.

Lemma getApiSchema_keeps sd name : keeps (getApiSchema sd name) publication.
Proof.
  intros s. destruct (has_inline sd) eqn:Hi.
  { by rewrite getApiSchema_inline. }
  destruct (has_file sd) eqn:Hf.
  { destruct (getApiSchema_upload sd name s) as [E _].
    { unfold takes_file_branch. by rewrite Hi, Hf. }
    rewrite E. pose proof (uploadSchemaToS3_keeps (apiSchemaFile sd) name s) as K.
    unfold mbind, M_bind. by destruct (uploadSchemaToS3 _ name s). }
  destruct (has_function sd) eqn:Hn.
  { by rewrite getApiSchema_function. }
  rewrite getApiSchema_none; [done|].
  unfold populated_variants. by rewrite Hi, Hf, Hn.
Qed.

(** An inline document that is the empty string fails the source's test and
    counts as absent. *)
Lemma empty_inline_is_absent name s :
  populated_variants ex_empty_inline = 0
  ∧ getApiSchema ex_empty_inline name s = Thrown (Error no_schema_message) s.
Proof. done. Qed.

(** C3, as claimed, fails: the second of two specifications that publish a
    file under one action group name has a populated variant, and its
    resolution throws, the id of its deployment being taken by the first. *)
Lemma C3_schema_resolution_counterexample :
  0 < populated_variants ex_file
  ∧ getApiSchema ex_file "files" ex_store_state
    = Ok (location_fragment (published_location "files")) ex_published_state
  ∧ ¬ ∃ f s', getApiSchema ex_file "files" ex_published_state = Ok f s'.
Proof.
  split; [vm_compute; lia|]. split; [by vm_compute|].
  intros (f & s' & E). vm_compute in E. discriminate.
Qed.

(** C3, amended: a schema specification with no populated variant makes
    resolution throw the configuration error, in the state it was called in
    and without a fragment.  With a populated variant, resolution returns a
    fragment that carries exactly one of the three representations, provided
    that, when it publishes a file, the store exists and no deployment is
    declared under the action group's name; and when it throws, it is the
    publication that failed, for the lack of one of the two, with an error
    that is not the configuration error.  A variant is populated when the
    source's test on it succeeds. *)
Theorem C3_schema_resolution sd name s :
  (populated_variants sd = 0 →
     getApiSchema sd name s = Thrown (Error no_schema_message) s)
  ∧ (0 < populated_variants sd →
     (takes_file_branch sd = true →
        is_Some (assetManagementBucket s) ∧ deployment_id name ∉ child_ids s) →
     ∃ f s', getApiSchema sd name s = Ok f s' ∧ representations f = 1)
  ∧ (0 < populated_variants sd →
     ∀ e s', getApiSchema sd name s = Thrown e s' →
       takes_file_branch sd = true ∧ e ≠ Error no_schema_message
       ∧ (assetManagementBucket s = None ∨ deployment_id name ∈ child_ids s)).
Proof.
  split; [apply getApiSchema_none|].
  assert (0 < populated_variants sd → takes_file_branch sd = false →
          ∃ f, getApiSchema sd name s = Ok f s ∧ representations f = 1) as Hpure.
  { intros Hp Hb. unfold takes_file_branch in Hb.
    destruct (has_inline sd) eqn:Hi.
    { eexists. rewrite getApiSchema_inline by done. split; [done|].
      unfold has_inline in Hi. by destruct (inlineAPISchema sd). }
    destruct (has_file sd) eqn:Hf; [done|].
    destruct (has_function sd) eqn:Hn.
    { eexists. rewrite getApiSchema_function by done. split; [done|].
      unfold has_function in Hn. by destruct (functionSchema sd). }
    unfold populated_variants in Hp. rewrite Hi, Hf, Hn in Hp. simpl in Hp. lia. }
  split.
  - intros Hp Hpub. destruct (takes_file_branch sd) eqn:Hb.
    + destruct (Hpub eq_refl) as [Hs Hfree].
      destruct (getApiSchema_file sd name s Hb Hs Hfree) as (s' & E & _).
      by eexists _, s'.
    + destruct (Hpure Hp eq_refl) as (f & E & Hf). by exists f, s.
  - intros Hp e s' E. destruct (takes_file_branch sd) eqn:Hb.
    + split; [done|].
      destruct (assetManagementBucket s) as [b|] eqn:Hs.
      * destruct (decide (deployment_id name ∈ child_ids s)) as [Hin|Hfree].
        -- destruct (getApiSchema_upload sd name s Hb) as [E' [file Hf]].
           destruct (uploadSchemaToS3_fails file name s) as (e0 & s0 & E0 & Hne);
             [by right|].
           rewrite E', Hf, (bind_Thrown _ _ _ _ _ E0) in E. injection E as <- <-.
           split; [done | by right].
        -- destruct (getApiSchema_file sd name s Hb) as (s0 & E0 & _); [by eexists | done|].
           rewrite E0 in E. discriminate.
      * destruct (getApiSchema_upload sd name s Hb) as [E' [file Hf]].
        destruct (uploadSchemaToS3_fails file name s) as (e0 & s0 & E0 & Hne);
          [by left|].
        rewrite E', Hf, (bind_Thrown _ _ _ _ _ E0) in E. injection E as <- <-.
        split; [done | by left].
    + destruct (Hpure Hp eq_refl) as (f & E0 & _). rewrite E0 in E. discriminate.
Qed.

Lemma C3_schema_resolution_witness :
  getApiSchema ex_nothing "ping" ex_store_state
  = Thrown (Error no_schema_message) ex_store_state
  ∧ (∃ f s', getApiSchema ex_file "files" ex_store_state = Ok f s'
             ∧ representations f = 1)
  ∧ (∀ e s', getApiSchema ex_file "files" ex_published_state = Thrown e s' →
       e ≠ Error no_schema_message).
Proof.
  split; [|split].
  - apply (proj1 (C3_schema_resolution ex_nothing "ping" ex_store_state)). reflexivity.
  - apply (proj1 (proj2 (C3_schema_resolution ex_file "files" ex_store_state))).
    + vm_compute. lia.
    + intros _. split; [by eexists | decide_closed].
  - intros e s' E.
    apply (proj2 (proj2 (C3_schema_resolution ex_file "files" ex_published_state))) in E.
    + apply E.
    + vm_compute. lia.
Defined.




(** The inline document wins over the file and the function schema, in any
    state, and nothing is published. *)
Lemma inline_wins name s :
  getApiSchema ex_all name s = Ok (inline_fragment (inlineAPISchema ex_inline)) s.
Proof. done. Qed.

(** C8: whether [deployAssetsToBucket] returns or throws, the staging
    directory it created is still in the file system afterwards, holding
    the files it wrote: the directory is not cleaned up.  It returns when
    the store exists and no deployment is declared under the prefix. *)
Theorem C8_staging_directory_left_behind files prefix s :
  fs (final (deployAssetsToBucket files prefix s)) !! staging_directory s = Some files
  ∧ (is_Some (assetManagementBucket s) → deployment_id prefix ∉ child_ids s →
     ∃ s', deployAssetsToBucket files prefix s = Ok (deployment_id prefix) s').
Proof.
  rewrite deployAssetsToBucket_run. split.
  - case_bool_decide; [|destruct (assetManagementBucket s)];
      simpl; apply lookup_insert_eq.
  - intros [b Hb] Hfree. rewrite bool_decide_eq_false_2 by done. rewrite Hb.
    by eexists.
Qed.

Lemma C8_staging_directory_left_behind_witness :
  fs (final (deployAssetsToBucket {[ "OpenAPISchema_files.json" := [Byte.x6f] ]}
               "files" ex_store_state))
    !! "/tmp/cdk-a1B2ca"
  = Some {[ "OpenAPISchema_files.json" := [Byte.x6f] ]}
  ∧ ∃ s', deployAssetsToBucket {[ "OpenAPISchema_files.json" := [Byte.x6f] ]}
            "files" ex_store_state
          = Ok "AssetDeployment-files" s'.
Proof.
  destruct (C8_staging_directory_left_behind
              {[ "OpenAPISchema_files.json" := [Byte.x6f] ]} "files" ex_store_state)
    as [H1 H2].
  split; [exact H1|]. apply H2; [by eexists | decide_closed].
Defined.

(** The same when the call throws: at the second publication under one
    name a second directory is created, written and left behind. *)
Lemma staging_directory_left_behind_on_throw :
  let r := deployAssetsToBucket {[ "OpenAPISchema_files.json" := [Byte.x6f] ]}
             "files" ex_published_state in
  returned r = false
  ∧ mkdtemp_drawn (final r) = 2
  ∧ fs (final r) !! staging_directory ex_published_state
    = Some {[ "OpenAPISchema_files.json" := [Byte.x6f] ]}.
Proof.
  cbv zeta. split; [by vm_compute|]. split; [by vm_compute|].
  rewrite deployAssetsToBucket_run, bool_decide_eq_true_2 by decide_closed.
  apply lookup_insert_eq.
Qed.

(** ** The capability assembler *)

#[export] Instance resolvable_dec a : Decision (resolvable a).
Proof. unfold resolvable. apply _. Defined.

#[export] Instance can_publish_dec s a : Decision (can_publish s a).
Proof. unfold can_publish. apply _. Defined.

#[export] Instance can_assemble_dec s l : Decision (can_assemble s l).
Proof. unfold can_assemble. apply _. Defined.

#[export] Instance assemblable_dec batch : Decision (assemblable batch).
Proof. unfold assemblable, well_formed_batch. destruct batch; apply _. Defined.

Lemma deployment_id_inj n m : deployment_id n = deployment_id m → n = m.
Proof. unfold deployment_id. simpl. by intros [=]. Qed.

Lemma publication_names_cons a l :
  publication_names (a :: l)
  = if publishes a then actionGroupName a :: publication_names l
    else publication_names l.
Proof.
  unfold publication_names. rewrite filter_cons.
  destruct (publishes a); reflexivity.
Qed.

Lemma publication_names_app l1 l2 :
  publication_names (l1 ++ l2) = publication_names l1 ++ publication_names l2.
Proof. unfold publication_names. by rewrite list.filter_app, fmap_app. Qed.

Lemma publishes_file a :
  publishes a = true →
  has_inline (schemaDefinition a) = false
  ∧ ∃ file, apiSchemaFile (schemaDefinition a) = Some file.
Proof.
  unfold publishes, has_file. destruct (has_inline _); [done|].
  destruct (apiSchemaFile _); [|done]. intros _. split; [done | by eexists].
Qed.

(** One step of the assembler keeps the rest of the list assemblable, and
    conversely. *)
Lemma can_assemble_cons s s' a l :
  assetManagementBucket s' = assetManagementBucket s →
  child_ids s'
  = child_ids s ++ (if publishes a then [deployment_id (actionGroupName a)] else []) →
  can_assemble s (a :: l) ↔ resolvable a ∧ can_publish s a ∧ can_assemble s' l.
Proof.
  intros Hb Hc. unfold can_assemble, can_publish.
  rewrite publication_names_cons, Hb, Hc, list.Forall_cons.
  destruct (publishes a) eqn:Hp.
  - rewrite list.NoDup_cons, list.Forall_cons. split.
    + intros ((Ha & Hl) & (Hn & Hd) & (Hf & Hfs) & Hs).
      split; [done|]. split; [intros _; split; [by apply Hs | done]|].
      split; [done|]. split; [done|]. split; [|intros _; by apply Hs].
      rewrite list.Forall_forall in Hfs |- *. intros n Hin.
      rewrite elem_of_app, list_elem_of_singleton.
      intros [?|E]; [by apply (Hfs n)|].
      apply deployment_id_inj in E. subst. by apply Hn.
    + intros (Ha & Hpub & Hl & Hd & Hfs & Hs).
      destruct (Hpub eq_refl) as [Hst Hfree].
      split; [done|]. split; [|split; [|done]].
      * split; [|done]. intros Hin.
        rewrite list.Forall_forall in Hfs. apply (Hfs _ Hin).
        rewrite elem_of_app, list_elem_of_singleton. by right.
      * split; [done|]. eapply List.Forall_impl; [|exact Hfs].
        intros n Hn Hin. apply Hn. rewrite elem_of_app. by left.
  - rewrite app_nil_r. split.
    + intros ((Ha & Hl) & Hd & Hfs & Hs). done.
    + intros (Ha & _ & Hl & Hd & Hfs & Hs). done.
Qed.

Lemma actionGroupProperty_keeps a : keeps (actionGroupProperty a) publication.
Proof.
  unfold actionGroupProperty.
  apply keeps_bind; [apply _ | apply getApiSchema_keeps |].
  intros f. apply keeps_ret, _.
Qed.

(** The step of the assembler on a specification whose schema can be
    resolved. *)
Lemma actionGroupProperty_returns a s :
  resolvable a → can_publish s a →
  ∃ s', actionGroupProperty a s = Ok (fragment_of a) s'
    ∧ publication s s'
    ∧ child_ids s'
      = child_ids s ++ (if publishes a then [deployment_id (actionGroupName a)] else [])
    ∧ (agentServiceRole s = None → s' = if publishes a then staged a s else s).
Proof.
  intros Ha Hpub. unfold actionGroupProperty, fragment_of. unfold can_publish in Hpub.
  destruct (publishes a) eqn:Hp.
  - destruct (publishes_file a Hp) as (Hi & file & Hf).
    destruct (Hpub eq_refl) as [Hs Hfree].
    rewrite (bind_Ok _ _ _ _ _
               (getApiSchema_file_run _ (actionGroupName a) s file Hp Hf Hs Hfree)).
    unfold has_file. rewrite Hi, Hf. eexists. split; [reflexivity|].
    split; [apply published_publication|]. split; [apply published_ids|].
    intros Hr. by apply published_staged.
  - exists s. rewrite app_nil_r. split; [|done].
    unfold publishes in Hp.
    destruct (has_inline (schemaDefinition a)) eqn:Hi; simpl.
    { by rewrite (bind_Ok _ _ _ _ _ (getApiSchema_inline _ _ s Hi)). }
    simpl in Hp. rewrite Hp.
    destruct (has_function (schemaDefinition a)) eqn:Hn.
    { by rewrite (bind_Ok _ _ _ _ _ (getApiSchema_function _ _ s Hi Hp Hn)). }
    unfold resolvable, populated_variants in Ha. rewrite Hi, Hp, Hn in Ha.
    simpl in Ha. lia.
Qed.

(** It throws the configuration error on a specification without a
    populated variant, and nothing has changed. *)
Lemma actionGroupProperty_throws a s :
  ¬ resolvable a → actionGroupProperty a s = Thrown (Error no_schema_message) s.
Proof.
  intros Ha. unfold actionGroupProperty.
  apply bind_Thrown, getApiSchema_none. unfold resolvable in Ha. lia.
Qed.

(** It throws the error of the construct tree when a deployment is already
    declared under the name, after the directory has been written. *)
Lemma actionGroupProperty_collides a file s :
  publishes a = true →
  apiSchemaFile (schemaDefinition a) = Some file →
  deployment_id (actionGroupName a) ∈ child_ids s →
  actionGroupProperty a s
  = Thrown (NameTaken (deployment_id (actionGroupName a)))
      (written {[ schema_file_name (actionGroupName a) := file ]} s).
Proof.
  intros Hp Hf Hin. unfold actionGroupProperty.
  destruct (getApiSchema_upload (schemaDefinition a) (actionGroupName a) s Hp) as [E _].
  apply bind_Thrown. rewrite E, Hf. apply bind_Thrown. unfold uploadSchemaToS3.
  apply bind_Thrown. rewrite deployAssetsToBucket_run.
  by rewrite bool_decide_eq_true_2.
Qed.

Lemma actionGroupProperty_fails a s :
  ¬ (resolvable a ∧ can_publish s a) →
  ∃ e s', actionGroupProperty a s = Thrown e s'.
Proof.
  intros Hn. destruct (decide (resolvable a)) as [Ha|Ha].
  - destruct (publishes a) eqn:Hp.
    + destruct (publishes_file a Hp) as (_ & file & Hf).
      destruct (uploadSchemaToS3_fails file (actionGroupName a) s)
        as (e & s' & E & _).
      { destruct (assetManagementBucket s) as [b|] eqn:Hb; [|by left].
        right. destruct (decide (deployment_id (actionGroupName a) ∈ child_ids s));
          [done|]. destruct Hn. split; [done|]. intros _. split; [by eexists | done]. }
      exists e, s'. unfold actionGroupProperty.
      destruct (getApiSchema_upload (schemaDefinition a) (actionGroupName a) s Hp)
        as [E' _].
      apply bind_Thrown. rewrite E', Hf. by apply bind_Thrown.
    + destruct Hn. split; [done|]. unfold can_publish. by rewrite Hp.
  - eexists _, _. by apply actionGroupProperty_throws.
Qed.

(** The assembler's [map] on a list that can be assembled: one fragment per
    specification, in order, and one deployment per published file. *)
Lemma mapM_actionGroupProperty_returns l : ∀ s,
  can_assemble s l →
  ∃ s', mapM actionGroupProperty l s = Ok (fragment_of <$> l) s'
    ∧ publication s s'
    ∧ child_ids s' = child_ids s ++ (deployment_id <$> publication_names l)
    ∧ (agentServiceRole s = None → s' = publications l s).
Proof.
  induction l as [|a l IH]; intros s Hl.
  - exists s. rewrite app_nil_r. done.
  - assert (∃ s1, actionGroupProperty a s = Ok (fragment_of a) s1
              ∧ publication s s1
              ∧ child_ids s1
                = child_ids s ++
                    (if publishes a then [deployment_id (actionGroupName a)] else [])
              ∧ (agentServiceRole s = None → s1 = if publishes a then staged a s else s)
              ∧ can_assemble s1 l) as (s1 & E1 & P1 & C1 & R1 & Hl1).
    { assert (resolvable a ∧ can_publish s a) as [Ha Hp].
      { destruct Hl as (Hr & _ & Hf & Hs). split; [by inversion Hr|].
        intros Hpa. rewrite publication_names_cons, Hpa in Hf, Hs.
        split; [by apply Hs | by inversion Hf]. }
      destruct (actionGroupProperty_returns a s Ha Hp) as (s1 & E1 & P1 & C1 & R1).
      exists s1. repeat (split; [done|]).
      by apply (can_assemble_cons s s1 a l (pub_assetManagementBucket _ _ P1) C1). }
    destruct (IH s1 Hl1) as (s2 & E2 & P2 & C2 & R2).
    exists s2. split.
    { simpl. rewrite (bind_Ok _ _ _ _ _ E1), (bind_Ok _ _ _ _ _ E2). done. }
    split; [by etrans|]. split.
    + rewrite C2, C1, publication_names_cons, <- app_assoc.
      by destruct (publishes a).
    + intros Hr. simpl. rewrite <- (R1 Hr). apply R2.
      by rewrite (pub_agentServiceRole _ _ P1).
Qed.

(** Conversely, the [map] returns only on a list that can be assembled. *)
Lemma mapM_actionGroupProperty_inv l : ∀ s frags s',
  mapM actionGroupProperty l s = Ok frags s' → can_assemble s l.
Proof.
  induction l as [|a l IH]; intros s frags s' E.
  - unfold can_assemble. repeat split; try constructor. done.
  - destruct (decide (resolvable a ∧ can_publish s a)) as [[Ha Hp]|Hn].
    + destruct (actionGroupProperty_returns a s Ha Hp) as (s1 & E1 & P1 & C1 & _).
      simpl in E. rewrite (bind_Ok _ _ _ _ _ E1) in E.
      destruct (mapM actionGroupProperty l s1) as [ys s2|e s2] eqn:E2.
      * apply (can_assemble_cons s s1 a l (pub_assetManagementBucket _ _ P1) C1).
        split; [done|]. split; [done|]. by apply (IH s1 ys s2).
      * by rewrite (bind_Thrown _ _ _ _ _ E2) in E.
    + destruct (actionGroupProperty_fails a s Hn) as (e & s1 & E1).
      simpl in E. by rewrite (bind_Thrown _ _ _ _ _ E1) in E.
Qed.

Lemma set_agentDefinition_same s : set_agentDefinition (agentDefinition s) s = s.
Proof. by destruct s. Qed.

(** [associateActionGroupInfo] on a list that can be assembled. *)
Lemma associateActionGroupInfo_returns l s :
  can_assemble s l →
  ∃ s1,
    associateActionGroupInfo (Some l) s
    = Ok tt (set_agentDefinition
               (CfnAgent.withActionGroups
                  (default [] (CfnAgent.actionGroups (agentDefinition s))
                     ++ (fragment_of <$> l))
                  (agentDefinition s)) s1)
    ∧ publication s s1
    ∧ child_ids s1 = child_ids s ++ (deployment_id <$> publication_names l)
    ∧ (agentServiceRole s = None → s1 = publications l s).
Proof.
  intros Hl. destruct (mapM_actionGroupProperty_returns l s Hl) as (s1 & E & P & C & R).
  exists s1. split; [|done].
  unfold associateActionGroupInfo. rewrite (bind_Ok _ _ _ _ _ E).
  unfold mbind, M_bind, get, modify. by rewrite (pub_agentDefinition _ _ P).
Qed.

Lemma associateActionGroupInfo_inv l s s' :
  associateActionGroupInfo (Some l) s = Ok tt s' → can_assemble s l.
Proof.
  unfold associateActionGroupInfo. intros E.
  destruct (mapM actionGroupProperty l s) as [ys s1|e s1] eqn:E1.
  - by apply (mapM_actionGroupProperty_inv l s ys s1).
  - by rewrite (bind_Thrown _ _ _ _ _ E1) in E.
Qed.

(** Whether it returns or throws, [associateActionGroupInfo] makes
    publications and then at most replaces the definition, keeping its role
    reference. *)
Lemma associateActionGroupInfo_final batch s :
  ∃ s1 D, publication s s1
    ∧ final (associateActionGroupInfo batch s) = set_agentDefinition D s1
    ∧ CfnAgent.agentResourceRoleArn D
      = CfnAgent.agentResourceRoleArn (agentDefinition s).
Proof.
  destruct batch as [l|]; simpl.
  - pose proof (mapM_keeps actionGroupProperty publication l
                  actionGroupProperty_keeps s) as K.
    destruct (mapM actionGroupProperty l s) as [ys s1|e s1] eqn:E1.
    + rewrite (bind_Ok _ _ _ _ _ E1). eexists s1, _. split; [exact K|].
      split; [reflexivity|]. simpl in *. by rewrite (pub_agentDefinition _ _ K).
    + rewrite (bind_Thrown _ _ _ _ _ E1). exists s1, (agentDefinition s1).
      split; [exact K|]. simpl in *. rewrite set_agentDefinition_same.
      by rewrite (pub_agentDefinition _ _ K).
  - exists s, (agentDefinition s). by rewrite set_agentDefinition_same.
Qed.

(** On a list that cannot be assembled it throws, and the definition and
    the permissions are as before. *)
Lemma associateActionGroupInfo_throws l s :
  ¬ can_assemble s l →
  ∃ e s', associateActionGroupInfo (Some l) s = Thrown e s'
    ∧ agentDefinition s' = agentDefinition s
    ∧ permissions s' = permissions s.
Proof.
  intros Hn. unfold associateActionGroupInfo.
  pose proof (mapM_keeps actionGroupProperty publication l
                actionGroupProperty_keeps s) as K.
  destruct (mapM actionGroupProperty l s) as [ys s1|e s1] eqn:E1.
  - destruct Hn. by apply (mapM_actionGroupProperty_inv l s ys s1).
  - exists e, s1. rewrite (bind_Thrown _ _ _ _ _ E1). simpl in K.
    split; [done|]. split; [apply (pub_agentDefinition _ _ K)|].
    apply (pub_permissions _ _ K).
Qed.

(** The fragment built for a specification carries its resolved schema. *)
Lemma fragment_of_carries a : resolvable a → carries a (fragment_of a).
Proof.
  intros Ha. unfold carries, fragment_of. simpl. do 4 (split; [done|]).
  destruct (has_inline (schemaDefinition a)) eqn:Hi.
  { exists (inline_fragment (inlineAPISchema (schemaDefinition a))).
    split; [|done]. intros s _. exists s. by apply getApiSchema_inline. }
  destruct (has_file (schemaDefinition a)) eqn:Hf.
  { exists (location_fragment (published_location (actionGroupName a))).
    split; [|done]. intros s Hp.
    assert (publishes a = true) as Hpa by (unfold publishes; by rewrite Hi, Hf).
    destruct (Hp Hpa) as [Hs Hfree].
    destruct (getApiSchema_file _ (actionGroupName a) s Hpa Hs Hfree) as (s' & E & _).
    by exists s'. }
  destruct (has_function (schemaDefinition a)) eqn:Hn.
  { exists (function_fragment (functionSchema (schemaDefinition a))).
    split; [|done]. intros s _. exists s. by apply getApiSchema_function. }
  unfold resolvable, populated_variants in Ha. rewrite Hi, Hf, Hn in Ha.
  simpl in Ha. lia.
Qed.

Lemma fragments_carry l : Forall resolvable l → Forall2 carries l (fragment_of <$> l).
Proof.
  induction 1 as [|a l Ha _ IH]; [constructor|].
  rewrite fmap_cons. constructor; [by apply fragment_of_carries | done].
Qed.

(** Fragments carry the names of their specifications, in order. *)
Lemma carries_names l frags :
  Forall2 carries l frags →
  CfnAgent.actionGroupName <$> frags = actionGroupName <$> l.
Proof.
  induction 1 as [|a p l frags (Hn & _) _ IH]; [done|].
  rewrite !fmap_cons. by f_equal.
Qed.

(** C6, as claimed, fails: two specifications that publish a file under
    one action group name are both resolvable, and their assembly throws at
    the second, so no list of fragments is produced. *)
Lemma C6_fragments_appended_in_order_counterexample :
  Forall resolvable [ex_files; ex_files_again]
  ∧ (¬ ∃ s', associateActionGroupInfo (Some [ex_files; ex_files_again]) ex_store_state
             = Ok tt s')
  ∧ CfnAgent.actionGroups
      (agentDefinition
         (final (associateActionGroupInfo (Some [ex_files; ex_files_again])
                   ex_store_state)))
    = None.
Proof.
  split; [decide_closed|]. split; [|by vm_compute].
  intros (s' & E). vm_compute in E. discriminate.
Qed.

(** C6, amended: on a list of specifications that can be assembled (each
    has a populated variant, those that publish a file have distinct names
    that no deployment in the tree uses, and the store exists if one
    publishes) [associateActionGroupInfo] returns, and the action groups of
    the definition are then the list that was there before (none counting as
    empty) followed by one fragment per specification, in the order of the
    input, each carrying the name, the executor, the description, the state
    and the resolved schema of its specification; the rest of the definition
    is as before.  The specifications are only read: the permissions of
    their functions, the one part of the caller's objects that a method of
    the construct changes, are as before.  On any other list it throws, and
    the definition is the one it was called with. *)
Theorem C6_fragments_appended_in_order l s :
  (can_assemble s l →
   ∃ frags s',
     associateActionGroupInfo (Some l) s = Ok tt s'
     ∧ CfnAgent.actionGroups (agentDefinition s')
       = Some (default [] (CfnAgent.actionGroups (agentDefinition s)) ++ frags)
     ∧ Forall2 carries l frags
     ∧ permissions s' = permissions s
     ∧ CfnAgent.agentName (agentDefinition s') = CfnAgent.agentName (agentDefinition s)
     ∧ CfnAgent.foundationModel (agentDefinition s')
       = CfnAgent.foundationModel (agentDefinition s)
     ∧ CfnAgent.agentResourceRoleArn (agentDefinition s')
       = CfnAgent.agentResourceRoleArn (agentDefinition s)
     ∧ CfnAgent.instruction (agentDefinition s')
       = CfnAgent.instruction (agentDefinition s))
  ∧ (¬ can_assemble s l →
     ∃ e s',
       associateActionGroupInfo (Some l) s = Thrown e s'
       ∧ agentDefinition s' = agentDefinition s
       ∧ permissions s' = permissions s).
Proof.
  split; [|apply associateActionGroupInfo_throws]. intros Hl.
  destruct (associateActionGroupInfo_returns l s Hl) as (s1 & E & P & _).
  eexists (fragment_of <$> l), _. split; [exact E|]. simpl.
  split; [done|]. split; [apply fragments_carry, Hl|].
  split; [apply (pub_permissions _ _ P)|]. done.
Qed.

Lemma C6_fragments_appended_in_order_witness :
  ∃ frags s',
    associateActionGroupInfo (Some [ex_ping; ex_files; ex_lookup]) ex_store_state
    = Ok tt s'
    ∧ CfnAgent.actionGroups (agentDefinition s') = Some frags
    ∧ CfnAgent.actionGroupName <$> frags = ["ping"; "files"; "lookup"]
    ∧ permissions s' = [].
Proof.
  destruct (proj1 (C6_fragments_appended_in_order [ex_ping; ex_files; ex_lookup]
                     ex_store_state))
    as (frags & s' & E & A & F & P & _).
  - decide_closed.
  - exists frags, s'. split; [exact E|]. split; [exact A|].
    split; [|exact P]. rewrite (carries_names _ _ F). reflexivity.
Defined.

(** An action-group list already in the definition is kept in front. *)
Lemma existing_action_groups_kept_in_front :
  let old :=
    {| CfnAgent.actionGroupName := "older";
       CfnAgent.actionGroupExecutor := None;
       CfnAgent.description := None;
       CfnAgent.actionGroupState := None;
       CfnAgent.apiSchema := None;
       CfnAgent.functionSchema := functionSchema ex_function |} in
  let s := set_agentDefinition
             (CfnAgent.withActionGroups [old] (ex_definition None)) ex_store_state in
  (CfnAgent.actionGroupName <$>
     default [] (CfnAgent.actionGroups (agentDefinition
       (final (associateActionGroupInfo (Some [ex_ping; ex_files]) s)))))
  = ["older"; "ping"; "files"].
Proof. by vm_compute. Qed.

(** ** The execution role synthesizer *)

Lemma addToPolicyAt_free id st c : id ∉ c.*1 → addToPolicyAt id st <$> c = c.
Proof.
  induction c as [|[i r] c IH]; [done|]. rewrite !fmap_cons.
  intros [Hi Hc]%not_elem_of_cons. rewrite (IH Hc). f_equal.
  unfold addToPolicyAt. destruct r; try done. simpl in Hi.
  by rewrite decide_False by done.
Qed.

(** [setupIAMRole]: the identifier is drawn; then the role registers,
    unless its id is taken, and receives the model-invocation statement. *)
Lemma setupIAMRole_run s :
  setupIAMRole s
  = if bool_decide ("BedrockServiceRole" ∈ child_ids s)
    then Thrown (NameTaken "BedrockServiceRole")
           (set_uuid_drawn (S (uuid_drawn s)) s)
    else
      Ok "BedrockServiceRole"
        (set_agentDefinition
           (CfnAgent.withRole (token "BedrockServiceRole" "Arn") (agentDefinition s))
           (set_children
              (children s ++
                 [("BedrockServiceRole",
                   RRole (execution_role (env s !! "CDK_DEFAULT_ACCOUNT")
                            (uuid_source s (uuid_drawn s))
                            [model_invocation_statement (env s !! "CDK_DEFAULT_REGION")
                               (CfnAgent.foundationModel (agentDefinition s))]))])
              (set_uuid_drawn (S (uuid_drawn s)) s))).
Proof.
  unfold setupIAMRole, mbind, M_bind, get, uuidv4, declare, addToPolicy, modify,
    child_ids. simpl.
  case_bool_decide as H; [reflexivity|]. simpl.
  rewrite fmap_app, (addToPolicyAt_free _ _ _ H). reflexivity.
Qed.

(** The ids the construct uses for its children do not clash. *)
Lemma id_shapes n u x :
  deployment_id n ≠ "AgentBlueprintAssets-" +:+ u
  ∧ "BedrockServiceRole" ≠ deployment_id n
  ∧ "BedrockServiceRole" ≠ "AgentBlueprintAssets-" +:+ u
  ∧ "AgentBlueprint-" +:+ x ≠ "AgentBlueprintAssets-" +:+ u
  ∧ "AgentBlueprint-" +:+ x ≠ deployment_id n
  ∧ "AgentBlueprint-" +:+ x ≠ "BedrockServiceRole".
Proof. unfold deployment_id. repeat split; simpl; intros [=]. Qed.

(** The state [createBedrockAgent] leaves when it synthesizes the role. *)
Lemma createBedrockAgent_synthesizes s :
  truthy_string (CfnAgent.agentResourceRoleArn (agentDefinition s)) = false →
  "BedrockServiceRole" ∉ child_ids s →
  agent_id (agentDefinition s) ∉ child_ids s →
  let definition :=
    CfnAgent.withRole (token "BedrockServiceRole" "Arn") (agentDefinition s) in
  let id := agent_id (agentDefinition s) in
  let role :=
    execution_role (env s !! "CDK_DEFAULT_ACCOUNT") (uuid_source s (uuid_drawn s))
      [model_invocation_statement (env s !! "CDK_DEFAULT_REGION")
         (CfnAgent.foundationModel (agentDefinition s))] in
  createBedrockAgent s
  = Ok tt
      (set_agent (Some id)
         (set_children
            (children s ++ [("BedrockServiceRole", RRole role); (id, RAgent definition)])
            (set_agentServiceRole (Some "BedrockServiceRole")
               (set_agentDefinition definition
                  (set_uuid_drawn (S (uuid_drawn s)) s))))).
Proof.
  intros Ht Hr Ha. unfold createBedrockAgent.
  unfold mbind at 1, M_bind at 1, get at 1. rewrite Ht. simpl negb. cbv iota.
  unfold mbind at 1, M_bind at 1, mbind at 1, M_bind at 1.
  rewrite setupIAMRole_run, bool_decide_eq_false_2 by done. simpl.
  unfold mbind, M_bind, get, declare, modify. simpl.
  rewrite bool_decide_eq_false_2.
  - rewrite <- app_assoc. reflexivity.
  - rewrite fmap_app, elem_of_app. intros [?|E]; [done|].
    apply list_elem_of_singleton in E.
    by apply (id_shapes EmptyString EmptyString) in E.
Qed.

(** The state it leaves when the caller supplied a role. *)
Lemma createBedrockAgent_supplied s :
  truthy_string (CfnAgent.agentResourceRoleArn (agentDefinition s)) = true →
  agent_id (agentDefinition s) ∉ child_ids s →
  let id := agent_id (agentDefinition s) in
  createBedrockAgent s
  = Ok tt (set_agent (Some id)
             (set_children (children s ++ [(id, RAgent (agentDefinition s))]) s)).
Proof.
  intros Ht Ha. unfold createBedrockAgent.
  unfold mbind at 1, M_bind at 1, get at 1. rewrite Ht. simpl.
  unfold mbind, M_bind, get, declare, modify, mret, M_ret. simpl.
  by rewrite bool_decide_eq_false_2.
Qed.

Lemma artifact_read_grants_app c1 c2 :
  artifact_read_grants (c1 ++ c2) = artifact_read_grants c1 ++ artifact_read_grants c2.
Proof. unfold artifact_read_grants, roles. by rewrite omap_app, bind_app. Qed.

Lemma artifact_read_grants_no_role c : roles c = [] → artifact_read_grants c = [].
Proof. unfold artifact_read_grants. by intros ->. Qed.

(** Whether it returns or throws, [createBedrockAgent] declares at most a
    role and an agent, after the children already there; the role holds no
    artifact-read grant, and no role is declared when the definition names
    one. *)
Lemma createBedrockAgent_final s :
  ∃ rest,
    children (final (createBedrockAgent s)) = children s ++ rest
    ∧ buckets rest = [] ∧ deployments rest = []
    ∧ artifact_read_grants rest = []
    ∧ length (roles rest) ≤ 1
    ∧ (truthy_string (CfnAgent.agentResourceRoleArn (agentDefinition s)) = true →
       roles rest = []).
Proof.
  unfold createBedrockAgent.
  unfold mbind at 1, M_bind at 1, get at 1.
  destruct (truthy_string (CfnAgent.agentResourceRoleArn (agentDefinition s))) eqn:Ht.
  - simpl. unfold mbind, M_bind, get, declare, modify, mret, M_ret. simpl.
    case_bool_decide; simpl.
    + exists []. rewrite app_nil_r. repeat split; simpl; done || lia.
    + eexists [_]. repeat split; simpl; done || lia.
  - simpl negb. cbv iota.
    unfold mbind at 1, M_bind at 1, mbind at 1, M_bind at 1.
    rewrite setupIAMRole_run. case_bool_decide; simpl.
    + exists []. rewrite app_nil_r. repeat split; simpl; done || lia.
    + unfold mbind, M_bind, get, declare, modify. simpl.
      case_bool_decide; simpl.
      * eexists [_]. repeat split; simpl; done || lia.
      * eexists [_; _]. rewrite <- app_assoc. repeat split; simpl; done || lia.
Qed.

(** ** Trust wiring *)

Lemma grantInvocation_keeps action : keeps (grantInvocation action) wiring.
Proof.
  intros s. unfold grantInvocation, mbind, M_bind, uuidv4, get. simpl.
  destruct (lambdaFunc action) as [f|]; simpl; [|by split].
  destruct (agent _); simpl; by split.
Qed.

Lemma addResourcePolicyForActions_keeps batch :
  keeps (addResourcePolicyForActions batch) wiring.
Proof.
  destruct batch as [l|]; simpl.
  - apply forEach_keeps; [apply _.. | apply grantInvocation_keeps].
  - apply keeps_ret, _.
Qed.

Lemma grantInvocation_run action s a :
  agent s = Some a →
  ∃ s', grantInvocation action s = Ok tt s' ∧ wiring s s'
    ∧ permissions s'
      = permissions s ++
          match lambdaFunc action with
          | Some f =>
              [(f, ("BedrockAgentInvokePermission-" +:+ slice0 12 (uuid_source s (uuid_drawn s)),
                    invocation_grant a))]
          | None => []
          end.
Proof.
  intros Ha. unfold grantInvocation, mbind, M_bind, uuidv4, get. simpl.
  destruct (lambdaFunc action) as [f|]; simpl.
  - rewrite Ha. eexists. split; [reflexivity|]. by split.
  - eexists. split; [reflexivity|]. split; [by split|]. simpl. by rewrite app_nil_r.
Qed.

Lemma forEach_grantInvocation l : ∀ s a,
  agent s = Some a →
  ∃ s' grants, forEach grantInvocation l s = Ok tt s' ∧ wiring s s'
    ∧ permissions s' = permissions s ++ grants
    ∧ grants.*1 = omap lambdaFunc l
    ∧ Forall (λ g, g.2.2 = invocation_grant a) grants.
Proof.
  induction l as [|x l IH]; intros s a Ha.
  - exists s, []. simpl. rewrite app_nil_r. repeat split; done.
  - destruct (grantInvocation_run x s a Ha) as (s1 & E1 & W1 & P1).
    destruct (IH s1 a) as (s2 & gs & E2 & W2 & P2 & F2 & A2).
    { by rewrite (wir_agent _ _ W1). }
    eexists s2, (_ ++ gs). split.
    + simpl. rewrite (bind_Ok _ _ _ _ _ E1). exact E2.
    + split; [by etrans|]. split; [by rewrite P2, P1, <- app_assoc|].
      simpl. destruct (lambdaFunc x) as [f|]; simpl.
      * split; [f_equal; exact F2 | by constructor].
      * split; [exact F2 | done].
Qed.

Lemma omap_length_filter {A B : Type} (f : A → option B) (l : list A) :
  length (omap f l) = length (filter (λ x, is_Some (f x)) l).
Proof.
  induction l as [|x l IH]; [done|]. simpl. rewrite filter_cons.
  destruct (f x) as [y|] eqn:E; simpl.
  - destruct (decide (is_Some (Some y))) as [|n]; [by rewrite <- IH|].
    destruct n. by eexists.
  - destruct (decide (is_Some (@None B))) as [[? ?]|]; [done | by rewrite <- IH].
Qed.

Lemma addResourcePolicyForActions_returns batch s a :
  agent s = Some a →
  ∃ s' grants, addResourcePolicyForActions batch s = Ok tt s' ∧ wiring s s'
    ∧ permissions s' = permissions s ++ grants
    ∧ grants.*1 = omap lambdaFunc (batch_list batch)
    ∧ Forall (λ g, g.2.2 = invocation_grant a) grants.
Proof.
  intros Ha. destruct batch as [l|]; simpl.
  - by apply forEach_grantInvocation.
  - exists s, []. rewrite app_nil_r. repeat split; done.
Qed.

Lemma forEach_grantInvocation_run l : ∀ s a,
  agent s = Some a →
  ∃ s', forEach grantInvocation l s = Ok tt s' ∧ wiring s s'
    ∧ permissions s'
      = permissions s ++ planned_grants a (uuid_source s) (uuid_drawn s) l
    ∧ uuid_drawn s' = uuid_drawn s + length l.
Proof.
  induction l as [|x l IH]; intros s a Ha.
  - exists s. simpl. rewrite app_nil_r, Nat.add_0_r. done.
  - assert (∃ s1, grantInvocation x s = Ok tt s1 ∧ wiring s s1
              ∧ uuid_drawn s1 = S (uuid_drawn s)
              ∧ permissions s1
                = permissions s ++
                    match lambdaFunc x with
                    | Some f =>
                        [(f, ("BedrockAgentInvokePermission-"
                                +:+ slice0 12 (uuid_source s (uuid_drawn s)),
                              invocation_grant a))]
                    | None => []
                    end) as (s1 & E1 & W1 & U1 & P1).
    { unfold grantInvocation, mbind, M_bind, uuidv4, get. simpl.
      destruct (lambdaFunc x) as [f|]; simpl.
      - rewrite Ha. eexists. split; [reflexivity|]. by split.
      - eexists. split; [reflexivity|]. split; [by split|]. simpl.
        by rewrite app_nil_r. }
    destruct (IH s1 a) as (s2 & E2 & W2 & P2 & U2).
    { by rewrite (wir_agent _ _ W1). }
    exists s2. split.
    { simpl. rewrite (bind_Ok _ _ _ _ _ E1). exact E2. }
    split; [by etrans|]. split.
    + rewrite P2, P1, <- app_assoc, (wir_uuid_source _ _ W1), U1. done.
    + rewrite U2, U1. simpl. lia.
Qed.

(** ** The assembler against its functional description *)

Lemma staged_agentServiceRole a s : agentServiceRole (staged a s) = agentServiceRole s.
Proof. unfold staged. by destruct (apiSchemaFile _). Qed.

(** The fields the publications leave alone, and the tree they build. *)
Lemma publications_fields l : ∀ s,
  env (publications l s) = env s
  ∧ uuid_source (publications l s) = uuid_source s
  ∧ uuid_drawn (publications l s) = uuid_drawn s
  ∧ permissions (publications l s) = permissions s
  ∧ agent (publications l s) = agent s
  ∧ agentDefinition (publications l s) = agentDefinition s
  ∧ agentServiceRole (publications l s) = agentServiceRole s
  ∧ mkdtemp_drawn (publications l s) = mkdtemp_drawn s + length (filter publishes l)
  ∧ children (publications l s)
    = children s ++
        (as_child <$> planned_deployments (assetManagementBucket s) (tmpdir s)
                        (mkdtemp_source s) (mkdtemp_drawn s) l).
Proof.
  induction l as [|a l IH]; intros s; simpl.
  - rewrite app_nil_r, Nat.add_0_r. repeat split; done.
  - rewrite filter_cons. destruct (publishes a) eqn:Hp.
    + rewrite decide_True by done.
      destruct (IH (staged a s)) as (-> & -> & -> & -> & -> & -> & -> & -> & ->).
      unfold publishes, has_file in Hp. unfold staged.
      destruct (apiSchemaFile (schemaDefinition a)) as [file|];
        [|by rewrite andb_false_r in Hp].
      simpl. rewrite <- app_assoc. repeat split; try done; lia.
    + apply IH.
Qed.

Lemma publications_bucket l : ∀ s,
  assetManagementBucket (publications l s) = assetManagementBucket s.
Proof.
  induction l as [|a l IH]; intros s; [done|]. simpl. rewrite IH.
  destruct (publishes a); [|done]. unfold staged. by destruct (apiSchemaFile _).
Qed.

Lemma as_child_projections l :
  buckets (as_child <$> l) = [] ∧ roles (as_child <$> l) = []
  ∧ agents (as_child <$> l) = [] ∧ deployments (as_child <$> l) = l.
Proof.
  induction l as [|[i d] l (B & R & A & D)]; [done|].
  unfold buckets, roles, agents, deployments in *. rewrite fmap_cons. simpl.
  split; [exact B|]. split; [exact R|]. split; [exact A|]. f_equal. exact D.
Qed.

Lemma planned_deployments_names bucket tmp source l : ∀ n,
  (planned_deployments bucket tmp source n l).*1
  = deployment_id <$> publication_names l.
Proof.
  induction l as [|a l IH]; intros n; [done|].
  rewrite publication_names_cons. simpl. destruct (publishes a); [|apply IH].
  rewrite !fmap_cons. f_equal. apply IH.
Qed.

Lemma planned_deployments_length bucket tmp source l : ∀ n,
  length (planned_deployments bucket tmp source n l) = length (filter publishes l).
Proof.
  induction l as [|a l IH]; intros n; [done|]. simpl. rewrite filter_cons.
  destruct (publishes a); simpl; by rewrite IH.
Qed.

Lemma planned_deployments_bucket bucket tmp source l : ∀ n,
  Forall (λ d, S3.destinationBucket d.2 = bucket)
    (planned_deployments bucket tmp source n l).
Proof.
  induction l as [|a l IH]; intros n; simpl; [constructor|].
  destruct (publishes a); [|apply IH]. constructor; [done | apply IH].
Qed.

(** [associateActionGroupInfo], before a role exists, on a batch that can be
    assembled: the state it returns in. *)
Lemma associateActionGroupInfo_run batch s :
  agentServiceRole s = None → can_assemble s (batch_list batch) →
  associateActionGroupInfo batch s
  = Ok tt (set_agentDefinition
             (match batch with
              | Some l =>
                  CfnAgent.withActionGroups
                    (default [] (CfnAgent.actionGroups (agentDefinition s))
                       ++ (fragment_of <$> l))
                    (agentDefinition s)
              | None => agentDefinition s
              end) (publications (batch_list batch) s)).
Proof.
  intros Hr Hl. destruct batch as [l|]; simpl.
  - destruct (associateActionGroupInfo_returns l s Hl) as (s1 & E & _ & _ & R).
    by rewrite <- (R Hr).
  - by rewrite set_agentDefinition_same.
Qed.

(** ** The constructor *)

Lemma constructor_store p props :
  new_construct p props
  = (associateActionGroupInfo (props_actionGroups props);;
     createBedrockAgent;;
     addResourcePolicyForActions (props_actionGroups props)) (after_store p props).
Proof.
  unfold new_construct, constructor, after_store, declared_store.
  destruct (checkActionsRequireArtifacts (props_actionGroups props)); reflexivity.
Qed.

Lemma after_store_fields p props :
  let s := after_store p props in
  env s = p_env p ∧ uuid_source s = p_uuid_source p
  ∧ uuid_drawn s = (if checkActionsRequireArtifacts (props_actionGroups props)
                    then 1 else 0)
  ∧ children s = declared_store p props
  ∧ permissions s = p_permissions p
  ∧ agentDefinition s = props_agentDefinition props
  ∧ agentServiceRole s = None
  ∧ assetManagementBucket s = store_id p props.
Proof.
  unfold after_store, declared_store, store_id.
  destruct (checkActionsRequireArtifacts (props_actionGroups props)); done.
Qed.

Lemma after_store_more p props :
  let s := after_store p props in
  tmpdir s = p_tmpdir p ∧ mkdtemp_source s = p_mkdtemp_source p
  ∧ mkdtemp_drawn s = 0 ∧ fs s = p_fs p ∧ agent s = None.
Proof.
  unfold after_store.
  destruct (checkActionsRequireArtifacts (props_actionGroups props)); done.
Qed.

Lemma declared_store_roles p props :
  roles (declared_store p props) = [] ∧ agents (declared_store p props) = []
  ∧ deployments (declared_store p props) = [].
Proof. unfold declared_store. by destruct (checkActionsRequireArtifacts _). Qed.

Lemma declared_store_buckets p props :
  buckets (declared_store p props)
  = if checkActionsRequireArtifacts (props_actionGroups props)
    then [("AgentBlueprintAssets-" +:+ slice0 12 (p_uuid_source p 0), artifact_store)]
    else [].
Proof. unfold declared_store. by destruct (checkActionsRequireArtifacts _). Qed.

Lemma declared_role_other p props :
  buckets (declared_role p props) = [] ∧ agents (declared_role p props) = []
  ∧ deployments (declared_role p props) = [].
Proof. unfold declared_role. by destruct (truthy_string _). Qed.

(** The id of the store is none of the other ids the construct uses. *)
Lemma declared_store_ids p props id :
  id ∈ (declared_store p props).*1 →
  id = "AgentBlueprintAssets-" +:+ slice0 12 (p_uuid_source p 0).
Proof.
  unfold declared_store. destruct (checkActionsRequireArtifacts _); simpl.
  - by intros ->%list_elem_of_singleton.
  - by intros ?%elem_of_nil.
Qed.

Lemma checkActionsRequireArtifacts_needs_store batch :
  checkActionsRequireArtifacts batch = true ↔ needs_store batch.
Proof.
  unfold needs_store. destruct batch as [l|]; simpl.
  - rewrite existsb_exists. split.
    + intros (a & Ha & Hf). exists l, a. repeat split; [by apply list_elem_of_In|].
      by destruct (apiSchemaFile _).
    + intros (l' & a & [= <-] & Ha & [b Hb]). exists a.
      split; [by apply list_elem_of_In | by rewrite Hb].
  - split; [done|]. by intros (? & ? & ? & _).
Qed.

Lemma publication_names_publishes l n :
  n ∈ publication_names l → ∃ a, a ∈ l ∧ publishes a = true ∧ actionGroupName a = n.
Proof.
  unfold publication_names. intros (a & -> & Ha)%list_elem_of_fmap.
  apply list_elem_of_filter in Ha as [Hp Ha]. exists a.
  split; [done|]. split; [by apply Is_true_true | done].
Qed.

Lemma publishes_needs_store l a :
  a ∈ l → publishes a = true → checkActionsRequireArtifacts (Some l) = true.
Proof.
  intros Ha Hp. apply checkActionsRequireArtifacts_needs_store.
  exists l, a. split; [done|]. split; [done|].
  destruct (publishes_file a Hp) as (_ & file & ->). by eexists.
Qed.

(** Specifications of the batch can be assembled in the state the
    constructor has reached once the store is decided, when each has a
    populated variant and the names of those that publish are distinct. *)
Lemma after_store_can_assemble p props l :
  l ⊆ batch_list (props_actionGroups props) →
  Forall resolvable l → NoDup (publication_names l) →
  can_assemble (after_store p props) l.
Proof.
  intros Hsub Hr Hd.
  destruct (after_store_fields p props) as (_ & _ & _ & Ech & _ & _ & _ & Eb).
  unfold can_assemble, child_ids. rewrite Ech, Eb.
  do 2 (split; [done|]). split.
  - apply list.Forall_forall. intros n _ Hin.
    apply declared_store_ids in Hin. by apply id_shapes in Hin.
  - intros Hne. unfold store_id.
    destruct (publication_names l) as [|n ns] eqn:En; [done|].
    destruct (publication_names_publishes l n) as (a & Ha & Hp & _).
    { rewrite En. left. }
    apply Hsub in Ha.
    destruct (props_actionGroups props) as [l0|]; [|by apply elem_of_nil in Ha].
    by rewrite (publishes_needs_store l0 a Ha Hp).
Qed.

(** A batch is assemblable exactly when it can be assembled in that
    state. *)
Lemma assemblable_can_assemble p props :
  assemblable (props_actionGroups props)
  ↔ can_assemble (after_store p props) (batch_list (props_actionGroups props)).
Proof.
  unfold assemblable.
  assert (well_formed_batch (props_actionGroups props)
          ↔ Forall resolvable (batch_list (props_actionGroups props))) as ->.
  { destruct (props_actionGroups props); simpl; [done|].
    split; [constructor | done]. }
  split; [|by intros (? & ? & _)]. intros [Hr Hd].
  by apply after_store_can_assemble.
Qed.

Lemma final_definition_eq props d1 :
  d1 = match props_actionGroups props with
       | Some l =>
           CfnAgent.withActionGroups
             (default [] (CfnAgent.actionGroups (props_agentDefinition props))
                ++ (fragment_of <$> l))
             (props_agentDefinition props)
       | None => props_agentDefinition props
       end →
  (if truthy_string (CfnAgent.agentResourceRoleArn d1) then d1
   else CfnAgent.withRole (token "BedrockServiceRole" "Arn") d1)
  = final_definition props.
Proof.
  intros ->. unfold final_definition, final_role, final_actionGroups, batch_list.
  destruct props as [[n m r i g] [l|]]; simpl;
    destruct (truthy_string r); reflexivity.
Qed.

Lemma as_child_ids l : (as_child <$> l).*1 = l.*1.
Proof. induction l as [|[i d] l IH]; [done|]. rewrite !fmap_cons. by f_equal. Qed.

(** The ids in the tree once the store and the deployments are declared:
    neither the role's nor the agent's. *)
Lemma assembled_ids_free p props l n x :
  let ids :=
    fst <$> (declared_store p props ++
               (as_child <$> planned_deployments (store_id p props) (p_tmpdir p)
                               (p_mkdtemp_source p) n l)) in
  ("BedrockServiceRole" ∉ ids) ∧ ("AgentBlueprint-" +:+ x ∉ ids).
Proof.
  simpl. rewrite fmap_app, as_child_ids, planned_deployments_names.
  split; rewrite elem_of_app; intros [H|H].
  - apply declared_store_ids in H. by apply (id_shapes EmptyString _ EmptyString) in H.
  - apply list_elem_of_fmap in H as (m & H & _). by apply (id_shapes m) in H.
  - apply declared_store_ids in H. by apply (id_shapes EmptyString) in H.
  - apply list_elem_of_fmap in H as (m & H & _). by apply (id_shapes m) in H.
Qed.

(** The state a successful assembly ends in. *)
Lemma new_construct_run p props :
  assemblable (props_actionGroups props) →
  let d := props_agentDefinition props in
  let l := batch_list (props_actionGroups props) in
  let s1 := publications l (after_store p props) in
  ∃ sf, new_construct p props = Ok tt sf
    ∧ children sf
      = declared_store p props
          ++ (as_child <$> planned_deployments (store_id p props) (p_tmpdir p)
                             (p_mkdtemp_source p) 0 l)
          ++ declared_role p props
          ++ [(agent_id d, RAgent (final_definition props))]
    ∧ agentDefinition sf = final_definition props
    ∧ agent sf = Some (agent_id d)
    ∧ fs sf = fs s1
    ∧ mkdtemp_drawn sf = length (filter publishes l)
    ∧ permissions sf
      = p_permissions p
          ++ planned_grants (agent_id d) (p_uuid_source p) (draws_before_wiring props) l
    ∧ uuid_drawn sf = draws_before_wiring props + length l
    ∧ agentServiceRole sf
      = (if truthy_string (CfnAgent.agentResourceRoleArn d) then None
         else Some "BedrockServiceRole")
    ∧ assetManagementBucket sf = store_id p props.
Proof.
  intros Hasm d l s1. rewrite constructor_store.
  apply (assemblable_can_assemble p props) in Hasm.
  destruct (after_store_fields p props)
    as (Eenv & Eus & Eud & Ech & Eperm & Edef & Erole & Est).
  destruct (after_store_more p props) as (Etmp & Ems & Emd & Efs & Eag).
  set (s0 := after_store p props) in *.
  pose proof (associateActionGroupInfo_run _ s0 Erole Hasm) as E1.
  destruct (publications_fields l s0)
    as (Pe & Pus & Pud & Pp & Pa & Pd & Pr & Pm & Pch).
  fold s1 in Pe, Pus, Pud, Pp, Pa, Pd, Pr, Pm, Pch.
  fold l s1 in E1.
  match type of E1 with _ = Ok tt ?s => set (s2 := s) in * end.
  assert (children s2
          = declared_store p props
              ++ (as_child <$> planned_deployments (store_id p props) (p_tmpdir p)
                                 (p_mkdtemp_source p) 0 l)) as Ech2.
  { subst s2. simpl. by rewrite Pch, Ech, Est, Etmp, Ems, Emd. }
  assert (agentDefinition s2
          = match props_actionGroups props with
            | Some l0 =>
                CfnAgent.withActionGroups
                  (default [] (CfnAgent.actionGroups d) ++ (fragment_of <$> l0)) d
            | None => d
            end) as Ed2.
  { subst s2. simpl. by rewrite Edef. }
  assert (CfnAgent.agentName (agentDefinition s2) = CfnAgent.agentName d
          ∧ CfnAgent.agentResourceRoleArn (agentDefinition s2)
            = CfnAgent.agentResourceRoleArn d
          ∧ CfnAgent.foundationModel (agentDefinition s2)
            = CfnAgent.foundationModel d) as (En2 & Er2 & Em2).
  { rewrite Ed2. by destruct (props_actionGroups props). }
  destruct (assembled_ids_free p props l 0 (CfnAgent.agentName d)) as [Hfr Hfa].
  rewrite <- Ech2 in Hfr, Hfa.
  assert (∃ s3, createBedrockAgent s2 = Ok tt s3
            ∧ children s3
              = children s2 ++ declared_role p props
                  ++ [(agent_id d, RAgent (final_definition props))]
            ∧ agentDefinition s3 = final_definition props
            ∧ agent s3 = Some (agent_id d)
            ∧ fs s3 = fs s1 ∧ mkdtemp_drawn s3 = mkdtemp_drawn s1
            ∧ permissions s3 = p_permissions p
            ∧ uuid_source s3 = p_uuid_source p
            ∧ uuid_drawn s3 = draws_before_wiring props
            ∧ agentServiceRole s3
              = (if truthy_string (CfnAgent.agentResourceRoleArn d) then None
                 else Some "BedrockServiceRole")
            ∧ assetManagementBucket s3 = store_id p props)
    as (s3 & E3 & Ch3 & D3 & A3 & F3 & M3 & P3 & US3 & UD3 & R3 & B3).
  { assert (env s2 = p_env p ∧ uuid_source s2 = p_uuid_source p
            ∧ uuid_drawn s2 = uuid_drawn s0 ∧ permissions s2 = p_permissions p
            ∧ fs s2 = fs s1 ∧ mkdtemp_drawn s2 = mkdtemp_drawn s1
            ∧ agentServiceRole s2 = None
            ∧ assetManagementBucket s2 = store_id p props)
      as (Ee2 & Eu2 & Eud2 & Ep2 & Ef2 & Emd2 & Er0 & Eb2).
    { subst s2. simpl. repeat split; try congruence.
      subst s1. by rewrite publications_bucket. }
    pose proof (final_definition_eq props _ Ed2) as Hfd. rewrite Er2 in Hfd.
    unfold declared_role, draws_before_wiring. fold d.
    assert (agent_id (agentDefinition s2) = agent_id d) as Eid.
    { unfold agent_id. by rewrite En2. }
    clearbody s2.
    destruct (truthy_string (CfnAgent.agentResourceRoleArn d)) eqn:Ht.
    - eexists. rewrite createBedrockAgent_supplied;
        [|by rewrite Er2 | by rewrite Eid].
      split; [reflexivity|]. simpl. rewrite Eid, Eud2, Eud, Nat.add_0_r, Hfd, Er0, Eb2.
      repeat split; done.
    - eexists. rewrite createBedrockAgent_synthesizes;
        [|by rewrite Er2 | done | by rewrite Eid].
      split; [reflexivity|]. simpl. rewrite Eid, Em2, Ee2, Eu2, Eud2, Eud, Hfd, Eb2.
      repeat split; try done.
      destruct (checkActionsRequireArtifacts _); simpl; lia. }
  destruct (props_actionGroups props) as [l0|] eqn:El; simpl in l; subst l.
  - destruct (forEach_grantInvocation_run l0 s3 _ A3) as (s4 & E4 & W4 & P4 & U4).
    exists s4. split.
    { rewrite (bind_Ok _ _ _ _ _ E1), (bind_Ok _ _ _ _ _ E3). exact E4. }
    rewrite (wir_children _ _ W4), (wir_agentDefinition _ _ W4), (wir_agent _ _ W4),
      (wir_fs _ _ W4), (wir_mkdtemp_drawn _ _ W4), (wir_agentServiceRole _ _ W4),
      (wir_assetManagementBucket _ _ W4), P4, U4, Ch3, Ech2, P3, US3, UD3,
      M3, Pm, Emd, <- !app_assoc.
    repeat split; done.
  - exists s3. split.
    { rewrite (bind_Ok _ _ _ _ _ E1), (bind_Ok _ _ _ _ _ E3). done. }
    rewrite Ch3, Ech2, P3, UD3, M3, Pm, Emd, <- !app_assoc. simpl.
    rewrite app_nil_r, Nat.add_0_r. repeat split; done.
Qed.

Lemma final_bind {A B : Type} (m : M A) (f : A → M B) s :
  final ((m ≫= f) s)
  = match m s with
    | Ok a s' => final (f a s')
    | Thrown _ s' => s'
    end.
Proof. unfold mbind, M_bind. by destruct (m s). Qed.

(** The tree when the constructor stops, whether it returned or threw: the
    store if one was needed, then deployments into that store, then at most
    the role and the agent; no role holds an artifact-read grant. *)
Lemma new_construct_children p props :
  ∃ ds rest,
    children (final (new_construct p props)) = declared_store p props ++ ds ++ rest
    ∧ buckets ds = [] ∧ roles ds = [] ∧ agents ds = []
    ∧ Forall (λ d, S3.destinationBucket d.2 = store_id p props) (deployments ds)
    ∧ buckets rest = [] ∧ deployments rest = []
    ∧ artifact_read_grants rest = []
    ∧ length (roles rest) ≤ 1
    ∧ (truthy_string (CfnAgent.agentResourceRoleArn (props_agentDefinition props))
       = true → roles rest = []).
Proof.
  rewrite constructor_store.
  destruct (after_store_fields p props)
    as (Eenv & Eus & Eud & Ech & Eperm & Edef & Erole & Est).
  set (s0 := after_store p props) in *.
  destruct (associateActionGroupInfo_final (props_actionGroups props) s0)
    as (s1 & D & P1 & F1 & HD).
  destruct (pub_children _ _ P1 Erole) as (ds & Ech1 & Bds & Rds & Ads & Dds).
  rewrite Est in Dds. rewrite Ech in Ech1. rewrite Edef in HD.
  exists ds. rewrite final_bind.
  destruct (associateActionGroupInfo (props_actionGroups props) s0)
    as [[] s1'|e s1'] eqn:E1; simpl in F1; subst s1'.
  - destruct (createBedrockAgent_final (set_agentDefinition D s1))
      as (rest & Ch & Br & Dr & Ar & Lr & Rr).
    exists rest. simpl in Ch, Rr. rewrite HD in Rr. rewrite Ech1 in Ch.
    rewrite final_bind.
    destruct (createBedrockAgent (set_agentDefinition D s1)) as [[] s2|e s2] eqn:E2;
      simpl in Ch.
    + rewrite (wir_children _ _ (addResourcePolicyForActions_keeps _ s2)).
      rewrite Ch, <- app_assoc. done.
    + rewrite Ch, <- app_assoc. done.
  - exists []. simpl. rewrite Ech1, app_nil_r. repeat split; simpl; done || lia.
Qed.

(** The stores in the tree when the constructor stops, returning or not. *)
Lemma new_construct_buckets p props :
  buckets (children (final (new_construct p props)))
  = if checkActionsRequireArtifacts (props_actionGroups props)
    then [("AgentBlueprintAssets-" +:+ slice0 12 (p_uuid_source p 0), artifact_store)]
    else [].
Proof.
  rewrite <- declared_store_buckets.
  destruct (new_construct_children p props)
    as (ds & rest & -> & Bds & _ & _ & _ & Br & _).
  unfold buckets in *. by rewrite !omap_app, Bds, Br, !app_nil_r.
Qed.

(** C2: when the constructor stops, whether it returned or threw, the tree
    holds one artifact store if some specification of the batch has a file
    schema, and none otherwise; the store is encrypted, closed to the public
    and enforces SSL. *)
Theorem C2_store_iff_file_schema p props :
  let sf := final (new_construct p props) in
  (needs_store (props_actionGroups props)
   ↔ ∃ id, buckets (children sf) = [(id, artifact_store)])
  ∧ (¬ needs_store (props_actionGroups props) ↔ buckets (children sf) = []).
Proof.
  simpl. rewrite new_construct_buckets, <- checkActionsRequireArtifacts_needs_store.
  destruct (checkActionsRequireArtifacts _); split; split; try done.
  - by eexists.
  - by intros [? ?].
Qed.

(** No store for an absent batch, an empty batch, or a batch of inline and
    function schemas only. *)
Lemma no_store_without_file_schema p d :
  buckets (children (final (new_construct p
     {| props_agentDefinition := d; props_actionGroups := None |}))) = []
  ∧ buckets (children (final (new_construct p
     {| props_agentDefinition := d; props_actionGroups := Some [] |}))) = []
  ∧ buckets (children (final (new_construct p
     {| props_agentDefinition := d;
        props_actionGroups := Some [ex_ping; ex_lookup] |}))) = [].
Proof. by rewrite !new_construct_buckets. Qed.

(** A specification with both an inline document and a file makes the
    constructor declare the store, although its resolution publishes
    nothing. *)
Lemma store_declared_for_unused_file :
  let sf := final (new_construct (ex_process ex_env)
                     (ex_props None (Some [ex_group "ping" ex_all None]))) in
  length (buckets (children sf)) = 1 ∧ deployments (children sf) = [].
Proof. vm_compute. done. Qed.

(** ** Artifact-read grants *)

Lemma artifact_read_grants_declared_role p props :
  artifact_read_grants (declared_role p props) = [].
Proof. unfold declared_role. by destruct (truthy_string _). Qed.

(** No assembly adds an artifact-read grant to any role: schemas are
    resolved before [createBedrockAgent] sets [agentServiceRole], so every
    call of [addSchemaAccessForAgents] finds no role and returns. *)
Lemma artifact_read_grants_never_issued p props :
  artifact_read_grants (children (final (new_construct p props))) = [].
Proof.
  destruct (declared_store_roles p props) as (Rst & _).
  destruct (new_construct_children p props)
    as (ds & rest & -> & _ & Rds & _ & _ & _ & _ & Ar & _).
  rewrite !artifact_read_grants_app, Ar.
  by rewrite !artifact_read_grants_no_role.
Qed.

(** C1: on the batch of the first scenario (an inline schema and a file
    schema, no caller-supplied role) the constructor returns, one artifact
    has been published and the role has been synthesized, and the role holds
    the model-invocation statement only: no artifact-read grant was added
    for the file schema. *)
Theorem C1_no_artifact_read_grant_for_file_schema :
  let props := ex_props None (Some [ex_ping; ex_files]) in
  let r := new_construct (ex_process ex_env) props in
  returned r = true
  ∧ length (deployments (children (final r))) = 1
  ∧ (roles (children (final r))).*2
    = [execution_role (Some "111122223333") "0f8fad5b-d9cb-469f-a165-70867728950e"
         [model_invocation_statement (Some "us-east-1") (Some "anthropic.claude-v2")]]
  ∧ artifact_read_grants (children (final r)) = [].
Proof.
  split; [by vm_compute|]. split; [by vm_compute|]. split; [by vm_compute|].
  apply artifact_read_grants_never_issued.
Qed.

(** ** Claims on the role, the grants and the fragments *)

(** The roles in the tree after a successful assembly. *)
Lemma new_construct_roles p props :
  assemblable (props_actionGroups props) →
  ∃ sf, new_construct p props = Ok tt sf
    ∧ roles (children sf) = roles (declared_role p props)
    ∧ CfnAgent.agentResourceRoleArn (agentDefinition sf)
      = final_role (props_agentDefinition props).
Proof.
  intros Hasm.
  destruct (new_construct_run p props Hasm) as (sf & E & Ch & D & _).
  exists sf. split; [done|]. rewrite Ch, D. split; [|done].
  destruct (declared_store_roles p props) as (Rst & _).
  destruct (as_child_projections
              (planned_deployments (store_id p props) (p_tmpdir p)
                 (p_mkdtemp_source p) 0 (batch_list (props_actionGroups props))))
    as (_ & Rpl & _).
  unfold roles in *. rewrite !omap_app, Rst, Rpl. simpl. by rewrite app_nil_r.
Qed.




(** An empty role reference counts as none: the role is synthesized. *)
Lemma empty_role_reference_is_absent :
  let r := new_construct (ex_process ex_env) (ex_props (Some EmptyString) None) in
  length (roles (children (final r))) = 1.
Proof. by vm_compute. Qed.

(** With two file schemas under one name the constructor throws before the
    role is synthesized: no role although the definition names none. *)
Lemma no_role_when_assembly_throws :
  let r := new_construct ex_fresh_process
             (ex_props None (Some [ex_files; ex_files_again])) in
  returned r = false ∧ roles (children (final r)) = []
  ∧ agents (children (final r)) = [].
Proof. by vm_compute. Qed.

(** C5: once the agent exists, [addResourcePolicyForActions] returns, and
    the permissions it has added are one per specification with a backing
    function, in the order of the batch and on that function, each allowing
    bedrock.amazonaws.com to invoke it with the ARN of the agent as source
    ARN; specifications without a function add nothing. *)
Theorem C5_invocation_grants l s a :
  agent s = Some a →
  ∃ s' grants,
    addResourcePolicyForActions (Some l) s = Ok tt s'
    ∧ permissions s' = permissions s ++ grants
    ∧ length grants = length (filter (λ x, is_Some (lambdaFunc x)) l)
    ∧ grants.*1 = omap lambdaFunc l
    ∧ Forall (λ g,
        Lambda.action g.2.2 = "lambda:InvokeFunction"
        ∧ Lambda.principal g.2.2
          = {| Iam.service := "bedrock.amazonaws.com"; Iam.principalConditions := [] |}
        ∧ Lambda.sourceArn g.2.2 = token a "AgentArn") grants.
Proof.
  intros Ha.
  destruct (addResourcePolicyForActions_returns (Some l) s a Ha)
    as (s' & grants & E & _ & P & G & A).
  exists s', grants. repeat split; try done.
  - simpl in G. by rewrite <- omap_length_filter, <- G, length_fmap.
  - eapply List.Forall_impl; [|exact A]. by intros g ->.
Qed.

Lemma C5_invocation_grants_witness :
  ∃ s' grants,
    addResourcePolicyForActions (Some [ex_ping; ex_lookup; ex_files])
      (set_agent (Some "AgentBlueprint-helper") ex_state) = Ok tt s'
    ∧ permissions s' = grants
    ∧ length grants = 1.
Proof.
  destruct (C5_invocation_grants [ex_ping; ex_lookup; ex_files]
              (set_agent (Some "AgentBlueprint-helper") ex_state)
              "AgentBlueprint-helper" eq_refl)
    as (s' & grants & E & P & L & _).
  exists s', grants. split; [exact E|]. split; [exact P | exact L].
Defined.

Lemma planned_grants_functions a source l : ∀ n,
  (planned_grants a source n l).*1 = omap lambdaFunc l
  ∧ Forall (λ g, g.2.2 = invocation_grant a) (planned_grants a source n l).
Proof.
  induction l as [|x l IH]; intros n; [by split|].
  destruct (IH (S n)) as [F A]. simpl.
  destruct (lambdaFunc x) as [f|]; simpl.
  - split; [f_equal; exact F | by constructor].
  - done.
Qed.

(** The same for a whole assembly: the grants name the agent the
    constructor has declared. *)
Lemma new_construct_invocation_grants p props :
  assemblable (props_actionGroups props) →
  ∃ sf grants,
    new_construct p props = Ok tt sf
    ∧ permissions sf = p_permissions p ++ grants
    ∧ grants.*1 = omap lambdaFunc (batch_list (props_actionGroups props))
    ∧ agent sf = Some (agent_id (props_agentDefinition props))
    ∧ Forall (λ g, g.2.2 = invocation_grant (agent_id (props_agentDefinition props)))
        grants.
Proof.
  intros Hasm.
  destruct (new_construct_run p props Hasm) as (sf & E & _ & _ & A & _ & _ & P & _).
  eexists sf, _. split; [done|]. split; [exact P|].
  destruct (planned_grants_functions (agent_id (props_agentDefinition props))
              (p_uuid_source p) (batch_list (props_actionGroups props))
              (draws_before_wiring props)) as [F G].
  done.
Qed.

(** C7, as claimed, fails: with an empty environment and no caller-supplied
    role the constructor does not throw; it returns, with declarations made. *)
Lemma C7_missing_environment_counterexample :
  let p := ex_process ∅ in
  let props := ex_props None (Some [ex_ping; ex_files]) in
  p_env p !! "CDK_DEFAULT_REGION" = None
  ∧ p_env p !! "CDK_DEFAULT_ACCOUNT" = None
  ∧ truthy_string (CfnAgent.agentResourceRoleArn (props_agentDefinition props)) = false
  ∧ ¬ (∃ e sf, new_construct p props = Thrown e sf ∧ children sf = []).
Proof.
  repeat split; try done.
  intros (e & sf & E & _). vm_compute in E. discriminate.
Qed.

(** C7, amended: the region and the account are read from the environment
    without a check.  When role synthesis is required, the constructor
    returns on every batch that can be assembled, whatever the environment;
    the role is declared, and when the region is missing the model ARN holds
    the text undefined in its place, and when the account is missing the
    account condition of the role has no value. *)
Theorem C7_missing_environment_not_checked p props :
  assemblable (props_actionGroups props) →
  truthy_string (CfnAgent.agentResourceRoleArn (props_agentDefinition props)) = false →
  ∃ sf role statement,
    new_construct p props = Ok tt sf
    ∧ roles (children sf) = [("BedrockServiceRole", role)]
    ∧ Iam.policy role = [statement]
    ∧ (p_env p !! "CDK_DEFAULT_REGION" = None →
       Iam.resources statement
       = ["arn:aws:bedrock:" +:+ "undefined" +:+ "::foundation-model/"
            +:+ template (CfnAgent.foundationModel (props_agentDefinition props))])
    ∧ (p_env p !! "CDK_DEFAULT_ACCOUNT" = None →
       Iam.principalConditions (Iam.assumedBy role)
       = [ {| Iam.operator := "StringEquals";
              Iam.key := "aws:SourceAccount";
              Iam.value := None |} ]).
Proof.
  intros Hasm Ht.
  destruct (new_construct_roles p props Hasm) as (sf & E & Hr & _).
  unfold declared_role in Hr. rewrite Ht in Hr.
  eexists sf, _, _. split; [exact E|]. split; [exact Hr|]. simpl.
  split; [done|]. split; by intros ->.
Qed.

Lemma C7_missing_environment_not_checked_witness :
  ∃ sf role statement,
    new_construct (ex_process ∅) (ex_props None (Some [ex_ping; ex_files])) = Ok tt sf
    ∧ roles (children sf) = [("BedrockServiceRole", role)]
    ∧ Iam.policy role = [statement]
    ∧ Iam.resources statement
      = ["arn:aws:bedrock:undefined::foundation-model/anthropic.claude-v2"]
    ∧ Iam.principalConditions (Iam.assumedBy role)
      = [ {| Iam.operator := "StringEquals";
             Iam.key := "aws:SourceAccount";
             Iam.value := None |} ].
Proof.
  destruct (C7_missing_environment_not_checked (ex_process ∅)
              (ex_props None (Some [ex_ping; ex_files])))
    as (sf & role & statement & E & Hr & Hp & Hres & Hc).
  - decide_closed.
  - reflexivity.
  - exists sf, role, statement. split; [exact E|]. split; [exact Hr|].
    split; [exact Hp|]. split; [exact (Hres eq_refl) | exact (Hc eq_refl)].
Defined.

(** With the environment set, the same batch gives the ARN of the region. *)
Lemma model_arn_example :
  let r := new_construct (ex_process ex_env) (ex_props None (Some [ex_ping; ex_files])) in
  (λ c, Iam.resources <$> Iam.policy c.2) <$> roles (children (final r))
  = [[["arn:aws:bedrock:us-east-1::foundation-model/anthropic.claude-v2"]]].
Proof. by vm_compute. Qed.

(** The role synthesizer and the primary resource from a state in which
    their ids are free. *)
Lemma createBedrockAgent_returns s :
  "BedrockServiceRole" ∉ child_ids s →
  agent_id (agentDefinition s) ∉ child_ids s →
  ∃ s', createBedrockAgent s = Ok tt s'
    ∧ permissions s' = permissions s
    ∧ agent s' = Some (agent_id (agentDefinition s))
    ∧ agentDefinition s'
      = (if truthy_string (CfnAgent.agentResourceRoleArn (agentDefinition s))
         then agentDefinition s
         else CfnAgent.withRole (token "BedrockServiceRole" "Arn") (agentDefinition s))
    ∧ children s'
      = children s ++
          (if truthy_string (CfnAgent.agentResourceRoleArn (agentDefinition s))
           then []
           else [("BedrockServiceRole",
                  RRole (execution_role (env s !! "CDK_DEFAULT_ACCOUNT")
                           (uuid_source s (uuid_drawn s))
                           [model_invocation_statement (env s !! "CDK_DEFAULT_REGION")
                              (CfnAgent.foundationModel (agentDefinition s))]))])
          ++ [(agent_id (agentDefinition s), RAgent (agentDefinition s'))].
Proof.
  intros Hr Ha.
  destruct (truthy_string (CfnAgent.agentResourceRoleArn (agentDefinition s))) eqn:Ht.
  - eexists. rewrite createBedrockAgent_supplied by done.
    split; [reflexivity|]. simpl. repeat split; done.
  - eexists. rewrite createBedrockAgent_synthesizes by done.
    split; [reflexivity|]. simpl. repeat split; done.
Qed.

(** C10: with no action-group list the constructor returns; no store and no
    deployment is declared, the permissions of the caller's functions are as
    before, the action groups of the definition are those supplied, and the
    agent is declared once, from the supplied definition with the
    synthesized role filled in when it names none. *)
Theorem C10_absent_batch p d :
  ∃ sf,
    new_construct p {| props_agentDefinition := d; props_actionGroups := None |}
    = Ok tt sf
    ∧ buckets (children sf) = []
    ∧ deployments (children sf) = []
    ∧ permissions sf = p_permissions p
    ∧ CfnAgent.actionGroups (agentDefinition sf) = CfnAgent.actionGroups d
    ∧ agents (children sf) = [(agent_id d, agentDefinition sf)]
    ∧ agent sf = Some (agent_id d)
    ∧ agentDefinition sf
      = (if truthy_string (CfnAgent.agentResourceRoleArn d) then d
         else CfnAgent.withRole (token "BedrockServiceRole" "Arn") d).
Proof.
  rewrite constructor_store. unfold after_store. simpl.
  set (s0 := start p _).
  destruct (createBedrockAgent_returns s0) as (s1 & E & P & A & D & C).
  { by intros ?%elem_of_nil. }
  { by intros ?%elem_of_nil. }
  exists s1. split.
  { unfold mbind, M_bind, mret, M_ret. by rewrite E. }
  simpl in *. rewrite C, D.
  destruct (truthy_string (CfnAgent.agentResourceRoleArn d)); repeat split; done.
Qed.

(** * Further properties of the construct *)

(** ** Where an assembly stops *)

Lemma mapM_stops {A B : Type} (f : A → M B) l1 x l2 : ∀ s ys s1 e s2,
  mapM f l1 s = Ok ys s1 → f x s1 = Thrown e s2 →
  mapM f (l1 ++ x :: l2) s = Thrown e s2.
Proof.
  induction l1 as [|a l1 IH]; intros s ys s1 e s2 E1 E2; simpl in *.
  - injection E1 as <- <-. by rewrite (bind_Thrown _ _ _ _ _ E2).
  - destruct (f a s) as [y s'|e' s'] eqn:Ea.
    + rewrite (bind_Ok _ _ _ _ _ Ea) in E1. rewrite (bind_Ok _ _ _ _ _ Ea).
      destruct (mapM f l1 s') as [ys' s1'|e' s1'] eqn:El.
      * rewrite (bind_Ok _ _ _ _ _ El) in E1. injection E1 as <- <-.
        erewrite bind_Thrown; [done|]. by eapply IH.
      * by rewrite (bind_Thrown _ _ _ _ _ El) in E1.
    + by rewrite (bind_Thrown _ _ _ _ _ Ea) in E1.
Qed.

(** The assembler's [map] up to a specification that makes it throw. *)
Lemma new_construct_stops_at p props good bad rest e s2 :
  props_actionGroups props = Some (good ++ bad :: rest) →
  Forall resolvable good → NoDup (publication_names good) →
  actionGroupProperty bad (publications good (after_store p props)) = Thrown e s2 →
  new_construct p props = Thrown e s2.
Proof.
  intros El Hr Hd Eb. rewrite constructor_store, El.
  destruct (after_store_fields p props) as (_ & _ & _ & _ & _ & _ & Erole & _).
  destruct (mapM_actionGroupProperty_returns good (after_store p props))
    as (s1 & E1 & _ & _ & R1).
  { apply after_store_can_assemble; [|done..]. rewrite El. simpl.
    intros a Ha. apply elem_of_app. by left. }
  rewrite (R1 Erole) in E1.
  unfold associateActionGroupInfo. apply bind_Thrown, bind_Thrown.
  by eapply mapM_stops.
Qed.

Lemma declared_store_deployments p props :
  deployments (declared_store p props) = [].
Proof. unfold declared_store. by destruct (checkActionsRequireArtifacts _). Qed.

(** What is in the tree and in the fields after the publications of the
    first specifications of a batch. *)
Lemma publications_after_store p props good :
  let s1 := publications good (after_store p props) in
  buckets (children s1) = buckets (declared_store p props)
  ∧ (deployments (children s1)).*1 = deployment_id <$> publication_names good
  ∧ mkdtemp_drawn s1 = length (filter publishes good)
  ∧ roles (children s1) = [] ∧ agents (children s1) = []
  ∧ agent s1 = None
  ∧ permissions s1 = p_permissions p
  ∧ agentDefinition s1 = props_agentDefinition props
  ∧ child_ids s1
    = (declared_store p props).*1 ++ (deployment_id <$> publication_names good).
Proof.
  destruct (after_store_fields p props)
    as (Eenv & Eus & Eud & Ech & Eperm & Edef & Erole & Est).
  destruct (after_store_more p props) as (Etmp & Ems & Emd & Efs & Eag).
  destruct (publications_fields good (after_store p props))
    as (Pe & Pus & Pud & Pp & Pa & Pd & Pr & Pm & Pch).
  simpl. unfold child_ids. rewrite Pch, Pa, Pp, Pd, Pm, Ech, Emd.
  set (pl := planned_deployments _ _ _ _ good).
  destruct (as_child_projections pl) as (Bpl & Rpl & Apl & Dpl).
  destruct (declared_store_roles p props) as (Rst & Ast & Dst).
  unfold buckets, deployments, roles, agents in *.
  rewrite !omap_app, Bpl, Rpl, Apl, Dpl, Rst, Ast, Dst, app_nil_r.
  repeat split; try done.
  - simpl. subst pl. apply planned_deployments_names.
  - rewrite fmap_app, as_child_ids. subst pl. by rewrite planned_deployments_names.
Qed.

(** X1: on a batch that can be assembled the constructor returns; the agent
    is the last child declared and the only agent, and it is declared with
    the definition the construct ends with: the supplied one, in which the
    role reference is the supplied one or the ARN of the synthesized role,
    and the action groups are those already there followed by the fragment
    of each specification, which holds the inline document as given, or the
    location of the deployment named after the action group, or the function
    schema as given. *)
Theorem agent_declared_last_with_final_definition p props :
  assemblable (props_actionGroups props) →
  ∃ sf, new_construct p props = Ok tt sf
    ∧ list.last (children sf)
      = Some (agent_id (props_agentDefinition props), RAgent (final_definition props))
    ∧ agents (children sf)
      = [(agent_id (props_agentDefinition props), final_definition props)]
    ∧ agentDefinition sf = final_definition props.
Proof.
  intros Hasm.
  destruct (new_construct_run p props Hasm) as (sf & E & Ch & D & _).
  exists sf. split; [done|]. rewrite Ch, D.
  destruct (declared_store_roles p props) as (_ & Ast & _).
  destruct (declared_role_other p props) as (_ & Ar & _).
  destruct (as_child_projections
              (planned_deployments (store_id p props) (p_tmpdir p)
                 (p_mkdtemp_source p) 0 (batch_list (props_actionGroups props))))
    as (_ & _ & Apl & _).
  split; [by rewrite !app_assoc, last_snoc|]. split; [|done].
  unfold agents in *. by rewrite !omap_app, Ast, Apl, Ar.
Qed.

Lemma agent_declared_last_with_final_definition_witness :
  ∃ sf,
    new_construct (ex_process ex_env) (ex_props None (Some [ex_ping; ex_files; ex_lookup]))
    = Ok tt sf
    ∧ (CfnAgent.actionGroupName <$>
         default [] (CfnAgent.actionGroups (agentDefinition sf)))
      = ["ping"; "files"; "lookup"]
    ∧ CfnAgent.agentResourceRoleArn (agentDefinition sf)
      = Some (token "BedrockServiceRole" "Arn").
Proof.
  destruct (agent_declared_last_with_final_definition (ex_process ex_env)
              (ex_props None (Some [ex_ping; ex_files; ex_lookup])))
    as (sf & E & _ & _ & D).
  - decide_closed.
  - exists sf. split; [exact E|]. rewrite D. split; reflexivity.
Defined.

Lemma planned_deployments_prefix bucket tmp source l : ∀ n,
  Forall (λ d, S3.destinationBucket d.2 = bucket
               ∧ d.1 = deployment_id (S3.destinationKeyPrefix d.2))
    (planned_deployments bucket tmp source n l).
Proof.
  induction l as [|a l IH]; intros n; simpl; [constructor|].
  destruct (publishes a); [|apply IH]. constructor; [done | apply IH].
Qed.

(** The deployments in the tree after a successful assembly. *)
Lemma new_construct_deployments p props :
  assemblable (props_actionGroups props) →
  ∃ sf, new_construct p props = Ok tt sf
    ∧ deployments (children sf)
      = planned_deployments (store_id p props) (p_tmpdir p) (p_mkdtemp_source p) 0
          (batch_list (props_actionGroups props))
    ∧ fs sf = fs (publications (batch_list (props_actionGroups props))
                    (after_store p props)).
Proof.
  intros Hasm.
  destruct (new_construct_run p props Hasm) as (sf & E & Ch & _ & _ & F & _).
  exists sf. split; [done|]. split; [|done]. rewrite Ch.
  set (pl := planned_deployments _ _ _ _ _).
  destruct (as_child_projections pl) as (_ & _ & _ & Dpl).
  destruct (declared_role_other p props) as (_ & _ & Dr).
  unfold deployments in *.
  rewrite !omap_app, declared_store_deployments, Dpl, Dr. simpl.
  by rewrite app_nil_r.
Qed.

(** X2: on a batch that can be assembled, the deployments in the tree are
    one per specification resolved through its file, in the order of the
    batch, each named after its action group with the action group name as
    key prefix, and each has as destination the store the constructor
    declared first: no deployment goes to an undefined bucket. *)
Theorem deployments_target_declared_store p props :
  assemblable (props_actionGroups props) →
  let l := batch_list (props_actionGroups props) in
  ∃ sf, new_construct p props = Ok tt sf
    ∧ (deployments (children sf)).*1
      = (λ a, "AssetDeployment-" +:+ actionGroupName a) <$> filter publishes l
    ∧ Forall (λ d,
        d.1 = "AssetDeployment-" +:+ S3.destinationKeyPrefix d.2
        ∧ ∃ store,
            S3.destinationBucket d.2 = Some store
            ∧ head (children sf) = Some (store, RBucket artifact_store))
        (deployments (children sf)).
Proof.
  intros Hasm l.
  destruct (new_construct_deployments p props Hasm) as (sf & E & D & _).
  destruct (new_construct_run p props Hasm) as (sf' & E' & Ch & _).
  rewrite E in E'. injection E' as <-.
  exists sf. split; [done|]. fold l in D, Ch. rewrite D. split.
  { rewrite planned_deployments_names. unfold publication_names.
    by rewrite <- list_fmap_compose. }
  destruct (planned_deployments (store_id p props) (p_tmpdir p)
              (p_mkdtemp_source p) 0 l) as [|d0 pl] eqn:Epl; [constructor|].
  assert (checkActionsRequireArtifacts (props_actionGroups props) = true) as Hc.
  { assert (d0.1 ∈ deployment_id <$> publication_names l) as Hin.
    { rewrite <- (planned_deployments_names (store_id p props) (p_tmpdir p)
                    (p_mkdtemp_source p) l 0), Epl. left. }
    apply list_elem_of_fmap in Hin as (n & _ & Hn).
    destruct (publication_names_publishes l n Hn) as (a & Ha & Hp & _).
    subst l. destruct (props_actionGroups props) as [l0|]; simpl in Ha.
    - by eapply publishes_needs_store.
    - by apply elem_of_nil in Ha. }
  rewrite <- Epl. eapply List.Forall_impl; [|apply planned_deployments_prefix].
  intros d [Hb Hn]. split; [done|].
  rewrite Ch. unfold store_id in Hb. unfold declared_store. rewrite Hc in Hb |- *.
  by eexists.
Qed.

Lemma deployments_target_declared_store_witness :
  ∃ sf,
    new_construct ex_fresh_process
      (ex_props None (Some [ex_ping; ex_files; ex_group "ping" ex_all None;
                            ex_group "more" ex_file_and_function None]))
    = Ok tt sf
    ∧ (deployments (children sf)).*1 = ["AssetDeployment-files"; "AssetDeployment-more"].
Proof.
  destruct (deployments_target_declared_store ex_fresh_process
              (ex_props None (Some [ex_ping; ex_files; ex_group "ping" ex_all None;
                                    ex_group "more" ex_file_and_function None])))
    as (sf & E & N & _).
  - decide_closed.
  - exists sf. split; [exact E|]. rewrite N. reflexivity.
Defined.

(** X3: the constructor returns exactly when every specification of the
    batch has a populated schema variant and the specifications resolved
    through their file have pairwise distinct action group names (an absent
    batch counts as such); the environment, the role reference and the
    random sources play no part. *)
Theorem constructor_returns_iff_assemblable p props :
  returned (new_construct p props) = true
  ↔ assemblable (props_actionGroups props).
Proof.
  split.
  - rewrite constructor_store. intros H.
    apply (assemblable_can_assemble p props).
    destruct (associateActionGroupInfo (props_actionGroups props) (after_store p props))
      as [[] s1|e s1] eqn:E1.
    + destruct (props_actionGroups props) as [l|]; simpl.
      * by apply (associateActionGroupInfo_inv l _ s1).
      * unfold can_assemble. repeat split; try constructor. done.
    + by rewrite (bind_Thrown _ _ _ _ _ E1) in H.
  - intros Hasm. by destruct (new_construct_run p props Hasm) as (sf & -> & _).
Qed.

(** X4: when the first specification the resolver rejects comes after
    specifications [good] that can be assembled, the constructor throws the
    configuration error and leaves behind what it had declared: the store if
    the batch needs one, and one deployment, with its staging directory, per
    specification of [good] resolved through its file.  No role and no agent
    are declared, no permission is added, and the definition is the supplied
    one. *)
Theorem constructor_stops_at_first_rejected p props good bad rest :
  props_actionGroups props = Some (good ++ bad :: rest) →
  Forall resolvable good → NoDup (publication_names good) → ¬ resolvable bad →
  ∃ sf, new_construct p props = Thrown (Error no_schema_message) sf
    ∧ buckets (children sf)
      = (if checkActionsRequireArtifacts (props_actionGroups props)
         then [("AgentBlueprintAssets-" +:+ slice0 12 (p_uuid_source p 0), artifact_store)]
         else [])
    ∧ (deployments (children sf)).*1
      = (λ a, "AssetDeployment-" +:+ actionGroupName a) <$> filter publishes good
    ∧ mkdtemp_drawn sf = length (filter publishes good)
    ∧ roles (children sf) = [] ∧ agents (children sf) = []
    ∧ agent sf = None
    ∧ permissions sf = p_permissions p
    ∧ agentDefinition sf = props_agentDefinition props.
Proof.
  intros El Hg Hd Hb.
  exists (publications good (after_store p props)). split.
  { eapply new_construct_stops_at; [done..|]. by apply actionGroupProperty_throws. }
  destruct (publications_after_store p props good)
    as (B & D & M & R & A & Ag & P & Df & _).
  rewrite B, D, declared_store_buckets. unfold publication_names.
  rewrite <- list_fmap_compose. repeat split; done.
Qed.

Lemma constructor_stops_at_first_rejected_witness :
  ∃ sf,
    new_construct (ex_process ex_env)
      (ex_props None (Some ([ex_files; ex_ping] ++ ex_broken :: [ex_lookup])))
    = Thrown (Error no_schema_message) sf
    ∧ length (buckets (children sf)) = 1
    ∧ (deployments (children sf)).*1 = ["AssetDeployment-files"]
    ∧ roles (children sf) = [] ∧ agents (children sf) = []
    ∧ permissions sf = [].
Proof.
  destruct (constructor_stops_at_first_rejected (ex_process ex_env)
              (ex_props None (Some ([ex_files; ex_ping] ++ ex_broken :: [ex_lookup])))
              [ex_files; ex_ping] ex_broken [ex_lookup])
    as (sf & E & B & N & _ & R & A & _ & P & _).
  - reflexivity.
  - decide_closed.
  - decide_closed.
  - decide_closed.
  - exists sf. split; [exact E|]. rewrite B, N. repeat split; done.
Defined.

(** X14: when a specification resolved through its file comes after
    specifications [good] that can be assembled, one of which is resolved
    through its file under the same action group name, the constructor
    throws the error of the construct tree for a name that is taken, since
    both deployments would be declared as AssetDeployment- followed by that
    name.  It leaves behind the store, the deployments of [good], and one
    more staging directory, which holds the schema file of the specification
    that could not be published.  No role and no agent are declared, no
    permission is added, and the definition is the supplied one. *)
Theorem constructor_stops_at_repeated_name p props good bad rest file :
  props_actionGroups props = Some (good ++ bad :: rest) →
  Forall resolvable good → NoDup (publication_names good) →
  publishes bad = true → apiSchemaFile (schemaDefinition bad) = Some file →
  actionGroupName bad ∈ publication_names good →
  ∃ sf, new_construct p props
        = Thrown (NameTaken ("AssetDeployment-" +:+ actionGroupName bad)) sf
    ∧ buckets (children sf)
      = [("AgentBlueprintAssets-" +:+ slice0 12 (p_uuid_source p 0), artifact_store)]
    ∧ (deployments (children sf)).*1
      = (λ a, "AssetDeployment-" +:+ actionGroupName a) <$> filter publishes good
    ∧ mkdtemp_drawn sf = S (length (filter publishes good))
    ∧ fs sf !! ((p_tmpdir p +:+ "/" +:+ "cdk-")
                  +:+ p_mkdtemp_source p (length (filter publishes good)))
      = Some {[ schema_file_name (actionGroupName bad) := file ]}
    ∧ roles (children sf) = [] ∧ agents (children sf) = []
    ∧ agent sf = None
    ∧ permissions sf = p_permissions p
    ∧ agentDefinition sf = props_agentDefinition props.
Proof.
  intros El Hg Hd Hp Hf Hin.
  destruct (publications_after_store p props good)
    as (B & D & M & R & A & Ag & P & Df & Ids).
  set (s1 := publications good (after_store p props)) in *.
  exists (written {[ schema_file_name (actionGroupName bad) := file ]} s1). split.
  { eapply new_construct_stops_at; [done..|].
    apply actionGroupProperty_collides; [done..|]. fold s1. rewrite Ids.
    apply elem_of_app. right. by apply list_elem_of_fmap_2. }
  simpl. rewrite B, D, M, declared_store_buckets. unfold publication_names.
  rewrite <- list_fmap_compose.
  assert (checkActionsRequireArtifacts (props_actionGroups props) = true) as ->.
  { rewrite El. apply (publishes_needs_store _ bad); [|done].
    apply elem_of_app. right. left. }
  assert (staging_directory s1
          = (p_tmpdir p +:+ "/" +:+ "cdk-")
              +:+ p_mkdtemp_source p (length (filter publishes good))) as <-.
  { unfold staging_directory. rewrite M.
    destruct (after_store_more p props) as (Etmp & Ems & _).
    assert (tmpdir s1 = p_tmpdir p ∧ mkdtemp_source s1 = p_mkdtemp_source p)
      as [-> ->]; [|done].
    rewrite <- Etmp, <- Ems. subst s1. clear.
    generalize (after_store p props). induction good as [|a l IH]; intros s; [done|].
    simpl. destruct (IH (if publishes a then staged a s else s)) as [-> ->].
    destruct (publishes a); [|done]. unfold staged.
    by destruct (apiSchemaFile (schemaDefinition a)). }
  rewrite lookup_insert_eq. repeat split; done.
Qed.

Lemma constructor_stops_at_repeated_name_witness :
  ∃ sf,
    new_construct ex_fresh_process
      (ex_props None (Some ([ex_ping; ex_files] ++ ex_files_again :: [ex_lookup])))
    = Thrown (NameTaken "AssetDeployment-files") sf
    ∧ length (buckets (children sf)) = 1
    ∧ (deployments (children sf)).*1 = ["AssetDeployment-files"]
    ∧ mkdtemp_drawn sf = 2
    ∧ fs sf !! "/tmp/cdk-a1B2cb"
      = Some {[ "OpenAPISchema_files.json" := [Byte.x6f; Byte.x70; Byte.x65; Byte.x6e] ]}
    ∧ roles (children sf) = [] ∧ agents (children sf) = []
    ∧ permissions sf = [].
Proof.
  destruct (constructor_stops_at_repeated_name ex_fresh_process
              (ex_props None (Some ([ex_ping; ex_files] ++ ex_files_again :: [ex_lookup])))
              [ex_ping; ex_files] ex_files_again [ex_lookup]
              [Byte.x6f; Byte.x70; Byte.x65; Byte.x6e])
    as (sf & E & B & N & M & F & R & A & _ & P & _).
  - reflexivity.
  - decide_closed.
  - decide_closed.
  - reflexivity.
  - reflexivity.
  - decide_closed.
  - exists sf. split; [exact E|]. rewrite B, N.
    split; [reflexivity|]. split; [reflexivity|]. split; [exact M|].
    split; [exact F|]. split; [exact R|]. split; [exact A | exact P].
Defined.

(** ** The artifact-read grant, when a role exists *)

Lemma addToPolicyAt_other id st c :
  buckets (addToPolicyAt id st <$> c) = buckets c
  ∧ deployments (addToPolicyAt id st <$> c) = deployments c
  ∧ agents (addToPolicyAt id st <$> c) = agents c.
Proof.
  induction c as [|[i r] c (B & D & A)]; [done|].
  unfold buckets, deployments, agents in *. rewrite fmap_cons.
  destruct r; simpl; try case_decide; simpl;
    (split; [|split]); try exact B; try exact D; try exact A; f_equal; done.
Qed.

Lemma addToPolicyAt_roles id st c :
  roles (addToPolicyAt id st <$> c)
  = (λ r, if decide (r.1 = id) then (r.1, Iam.addToPolicy st r.2) else r) <$> roles c.
Proof.
  induction c as [|[i r] c IH]; [done|].
  unfold roles in *. rewrite fmap_cons. unfold addToPolicyAt at 1.
  destruct r; try exact IH.
  destruct (decide (i = id)) as [Hi|Hi]; cbn [omap list_omap as_role];
    rewrite fmap_cons; cbn [fst snd];
    [rewrite decide_True by done | rewrite decide_False by done];
    f_equal; exact IH.
Qed.

(** X5: a schema file uploaded once the role exists gets its grant.  From a
    state with the store, without a role in the tree and in which the ids of
    the role, the agent and the deployment are free, [createBedrockAgent]
    followed by [uploadSchemaToS3] returns the published location, and the
    synthesized role then holds two statements: the model invocation, and
    s3:GetObject on the deployed bucket's ARN followed by the action group
    name, under the condition that the resource account is the one of the
    environment.  When the definition names a role, none is in the tree
    afterwards. *)
Theorem grant_added_once_role_exists s file name :
  roles (children s) = [] →
  is_Some (assetManagementBucket s) →
  "BedrockServiceRole" ∉ child_ids s →
  agent_id (agentDefinition s) ∉ child_ids s →
  deployment_id name ∉ child_ids s →
  ∃ s',
    (createBedrockAgent;; uploadSchemaToS3 (Some file) name) s
    = Ok (published_location name) s'
    ∧ roles (children s')
      = if truthy_string (CfnAgent.agentResourceRoleArn (agentDefinition s)) then []
        else [("BedrockServiceRole",
               execution_role (env s !! "CDK_DEFAULT_ACCOUNT")
                 (uuid_source s (uuid_drawn s))
                 [model_invocation_statement (env s !! "CDK_DEFAULT_REGION")
                    (CfnAgent.foundationModel (agentDefinition s));
                  {| Iam.sid := "AllowAccessToActionGroupAPISchemas";
                     Iam.effect := Iam.ALLOW;
                     Iam.actions := ["s3:GetObject"];
                     Iam.resources :=
                       [token ("AssetDeployment-" +:+ name) "DestinationBucketArn"
                          +:+ "/" +:+ name];
                     Iam.conditions :=
                       [ {| Iam.operator := "StringEquals";
                            Iam.key := "aws:ResourceAccount";
                            Iam.value := env s !! "CDK_DEFAULT_ACCOUNT" |} ] |}])].
Proof.
  intros Hr Hs Hfr Hfa Hfd.
  destruct (truthy_string (CfnAgent.agentResourceRoleArn (agentDefinition s))) eqn:Ht.
  - eexists. split.
    + erewrite bind_Ok; [|by apply createBedrockAgent_supplied].
      apply uploadSchemaToS3_returns; [done|].
      unfold child_ids. simpl. rewrite fmap_app, elem_of_app.
      intros [?|E]; [done|]. apply list_elem_of_singleton in E.
      symmetry in E. by apply (id_shapes name EmptyString) in E.
    + unfold published. simpl. destruct (agentServiceRole s); simpl;
        rewrite ?addToPolicyAt_roles; unfold roles in *;
        rewrite !omap_app, Hr; done.
  - eexists. split.
    + erewrite bind_Ok; [|by apply createBedrockAgent_synthesizes].
      apply uploadSchemaToS3_returns; [done|].
      unfold child_ids. simpl. rewrite fmap_app, elem_of_app.
      intros [?|E]; [done|]. simpl in E.
      apply elem_of_cons in E as [E|E];
        [symmetry in E; by apply (id_shapes name EmptyString EmptyString) in E|].
      apply list_elem_of_singleton in E.
      symmetry in E. by apply (id_shapes name EmptyString) in E.
    + unfold published. simpl. rewrite addToPolicyAt_roles. unfold roles in *.
      rewrite !omap_app, Hr. reflexivity.
Qed.

Lemma grant_added_once_role_exists_witness :
  ∃ s',
    (createBedrockAgent;; uploadSchemaToS3 (Some [Byte.x6f]) "files") ex_store_state
    = Ok (published_location "files") s'
    ∧ (λ r, Iam.sid <$> Iam.policy r.2) <$> roles (children s')
      = [["AllowModelInvocationForOrchestration"; "AllowAccessToActionGroupAPISchemas"]].
Proof.
  destruct (grant_added_once_role_exists ex_store_state [Byte.x6f] "files")
    as (s' & E & R).
  - reflexivity.
  - by eexists.
  - decide_closed.
  - decide_closed.
  - decide_closed.
  - exists s'. split; [exact E|]. rewrite R. reflexivity.
Defined.

(** ** The publisher *)

Lemma published_fields file name s :
  fs (published file name s)
  = <[staging_directory s := {[ schema_file_name name := file ]}]> (fs s)
  ∧ deployments (children (published file name s))
    = deployments (children s)
        ++ [deployment_of (assetManagementBucket s) (staging_directory s) name]
  ∧ buckets (children (published file name s)) = buckets (children s)
  ∧ agents (children (published file name s)) = agents (children s).
Proof.
  unfold published. destruct (agentServiceRole s) as [role|]; simpl.
  - destruct (addToPolicyAt_other role
                (artifact_read_statement
                   (token (deployment_id name) "DestinationBucketArn" +:+ "/" +:+ name)
                   (env s !! "CDK_DEFAULT_ACCOUNT"))
                (children s ++
                   [as_child (deployment_of (assetManagementBucket s)
                                (staging_directory s) name)]))
      as (B & D & A).
    rewrite B, D, A. unfold buckets, deployments, agents. rewrite !omap_app. simpl.
    rewrite !app_nil_r. done.
  - unfold buckets, deployments, agents. rewrite !omap_app. simpl.
    rewrite !app_nil_r. done.
Qed.

(** X6: with the store in place and no deployment declared under the name,
    [uploadSchemaToS3] with a buffer, empty or not, creates one staging
    directory that holds exactly one file, named OpenAPISchema_ followed by
    the action group name and .json, with the buffer as content; it leaves
    the other directories alone, declares one more deployment, from that
    directory into [this.assetManagementBucket] under the action group name
    as key prefix, and returns the bucket name and first object key of that
    deployment.  Without the store, or with a deployment already declared
    under the name, it throws, and the directory and its file are there all
    the same.  Without a buffer it returns an empty descriptor and changes
    nothing. *)
Theorem uploadSchemaToS3_stages_one_named_file file name s :
  (is_Some (assetManagementBucket s) → deployment_id name ∉ child_ids s →
   ∃ s',
     uploadSchemaToS3 (Some file) name s = Ok (published_location name) s'
     ∧ fs s' = <[staging_directory s := {[ schema_file_name name := file ]}]> (fs s)
     ∧ deployments (children s')
       = deployments (children s)
           ++ [deployment_of (assetManagementBucket s) (staging_directory s) name]
     ∧ buckets (children s') = buckets (children s)
     ∧ agents (children s') = agents (children s))
  ∧ (assetManagementBucket s = None ∨ deployment_id name ∈ child_ids s →
     ∃ e s',
       uploadSchemaToS3 (Some file) name s = Thrown e s'
       ∧ fs s' = <[staging_directory s := {[ schema_file_name name := file ]}]> (fs s)
       ∧ buckets (children s') = buckets (children s)
       ∧ roles (children s') = roles (children s)
       ∧ agents (children s') = agents (children s))
  ∧ uploadSchemaToS3 None name s
    = Ok {| CfnAgent.s3BucketName := None; CfnAgent.s3ObjectKey := None |} s.
Proof.
  split; [|split; [|done]].
  - intros Hs Hfree. exists (published file name s).
    split; [by apply uploadSchemaToS3_returns | apply published_fields].
  - intros H. unfold uploadSchemaToS3.
    destruct (decide (deployment_id name ∈ child_ids s)) as [Hin|Hin].
    + eexists _, _. split.
      * apply bind_Thrown. rewrite deployAssetsToBucket_run.
        by rewrite bool_decide_eq_true_2.
      * done.
    + destruct H as [Hb|?]; [|done]. eexists _, _. split.
      * apply bind_Thrown. rewrite deployAssetsToBucket_run.
        rewrite bool_decide_eq_false_2 by done. by rewrite Hb.
      * simpl. unfold buckets, roles, agents. rewrite !omap_app. simpl.
        rewrite !app_nil_r. done.
Qed.

Lemma uploadSchemaToS3_stages_one_named_file_witness :
  (∃ s',
     uploadSchemaToS3 (Some []) "files" ex_store_state
     = Ok (published_location "files") s'
     ∧ fs s' = {[ "/tmp/cdk-a1B2ca" := {[ "OpenAPISchema_files.json" := [] ]} ]})
  ∧ (∃ e s',
       uploadSchemaToS3 (Some []) "files" ex_state = Thrown e s'
       ∧ fs s' = {[ "/tmp/cdk-a1B2c3" := {[ "OpenAPISchema_files.json" := [] ]} ]}).
Proof.
  split.
  - destruct (uploadSchemaToS3_stages_one_named_file [] "files" ex_store_state)
      as (H & _).
    destruct H as (s' & E & F & _); [by eexists | decide_closed |].
    exists s'. split; [exact E|]. rewrite F. reflexivity.
  - destruct (uploadSchemaToS3_stages_one_named_file [] "files" ex_state)
      as (_ & H & _).
    destruct H as (e & s' & E & F & _); [by left|].
    exists e, s'. split; [exact E|]. rewrite F. reflexivity.
Defined.

(** ** Trust wiring over a whole assembly *)

(** X7: after the assembly of a batch that can be assembled, the
    permissions on the caller's functions are those that were there,
    followed by one per specification with a backing function, in the order
    of the batch.  Every specification takes one identifier, with or without
    a function: the permission of the specification at position [k] is named
    from the identifier drawn at position [k] after the draws for the store
    and the role, and the constructor has drawn that many plus the length of
    the batch when it returns. *)
Theorem permissions_follow_the_draws p props :
  assemblable (props_actionGroups props) →
  let l := batch_list (props_actionGroups props) in
  ∃ sf, new_construct p props = Ok tt sf
    ∧ uuid_drawn sf = draws_before_wiring props + length l
    ∧ ∃ grants,
        permissions sf = p_permissions p ++ grants
        ∧ grants.*1 = omap lambdaFunc l
        ∧ ∀ k a f, l !! k = Some a → lambdaFunc a = Some f →
            (f, ("BedrockAgentInvokePermission-"
                   +:+ slice0 12 (p_uuid_source p (draws_before_wiring props + k)),
                 invocation_grant (agent_id (props_agentDefinition props))))
            ∈ grants.
Proof.
  intros Hasm l.
  destruct (new_construct_run p props Hasm) as (sf & E & _ & _ & _ & _ & _ & P & U & _).
  exists sf. split; [done|]. split; [done|]. fold l in P.
  eexists. split; [exact P|]. clear.
  generalize (draws_before_wiring props). induction l as [|x l IH]; intros n.
  - split; [done|]. intros k a f Hk. by rewrite lookup_nil in Hk.
  - destruct (IH (S n)) as [IH1 IH2]. split.
    + simpl. destruct (lambdaFunc x); simpl; [f_equal|]; exact IH1.
    + intros [|k] a f Hk Hf; simpl in *.
      * injection Hk as ->. rewrite Hf, Nat.add_0_r. by left.
      * apply elem_of_app. right.
        replace (n + S k) with (S n + k) by lia. by eapply IH2.
Qed.

Lemma permissions_follow_the_draws_witness :
  ∃ sf,
    new_construct (ex_process ex_env) (ex_props None (Some [ex_files; ex_ping; ex_lookup]))
    = Ok tt sf
    ∧ uuid_drawn sf = 5.
Proof.
  destruct (permissions_follow_the_draws (ex_process ex_env)
              (ex_props None (Some [ex_files; ex_ping; ex_lookup])))
    as (sf & E & U & _).
  - decide_closed.
  - exists sf. split; [exact E | exact U].
Defined.

Lemma planned_grants_names a source l : ∀ n,
  grant_names (planned_grants a source n l)
  `sublist_of` ((λ k, "BedrockAgentInvokePermission-" +:+ slice0 12 (source k))
                  <$> seq n (length l)).
Proof.
  induction l as [|x l IH]; intros n; [done|]. simpl.
  unfold grant_names in *. rewrite fmap_app.
  destruct (lambdaFunc x); simpl.
  - apply sublist_skip, IH.
  - apply sublist_cons, IH.
Qed.

(** X8: the names of the permissions [addResourcePolicyForActions] adds are
    pairwise distinct, provided the first twelve characters of the
    identifiers drawn for the batch are. *)
Theorem permission_names_distinct l s a :
  agent s = Some a →
  NoDup ((λ k, slice0 12 (uuid_source s k)) <$> seq (uuid_drawn s) (length l)) →
  ∃ s' grants,
    addResourcePolicyForActions (Some l) s = Ok tt s'
    ∧ permissions s' = permissions s ++ grants
    ∧ NoDup (grant_names grants).
Proof.
  intros Ha Hnd.
  destruct (forEach_grantInvocation_run l s a Ha) as (s' & E & _ & P & _).
  exists s', (planned_grants a (uuid_source s) (uuid_drawn s) l).
  split; [exact E|]. split; [exact P|].
  eapply sublist_NoDup; [|apply planned_grants_names].
  rewrite (list_fmap_compose (λ k, slice0 12 (uuid_source s k))
             (String.append "BedrockAgentInvokePermission-")).
  apply (NoDup_fmap_2 _), Hnd.
Qed.

Lemma permission_names_distinct_witness :
  ∃ s' grants,
    addResourcePolicyForActions (Some [ex_lookup; ex_ping; ex_lookup])
      (set_agent (Some "AgentBlueprint-helper")
         (start ex_fresh_process (ex_props None None))) = Ok tt s'
    ∧ permissions s' = grants
    ∧ NoDup (grant_names grants).
Proof.
  destruct (permission_names_distinct [ex_lookup; ex_ping; ex_lookup]
              (set_agent (Some "AgentBlueprint-helper")
                 (start ex_fresh_process (ex_props None None)))
              "AgentBlueprint-helper" eq_refl)
    as (s' & grants & E & P & N).
  - apply (bool_decide_unpack _). vm_compute. exact I.
  - exists s', grants. split; [exact E|]. split; [exact P | exact N].
Defined.

(** ** Staging directories *)

Lemma staged_fields a s :
  publishes a = true →
  assetManagementBucket (staged a s) = assetManagementBucket s
  ∧ tmpdir (staged a s) = tmpdir s
  ∧ mkdtemp_source (staged a s) = mkdtemp_source s
  ∧ mkdtemp_drawn (staged a s) = S (mkdtemp_drawn s)
  ∧ child_ids (staged a s) = child_ids s ++ [deployment_id (actionGroupName a)]
  ∧ ∃ file, apiSchemaFile (schemaDefinition a) = Some file
      ∧ fs (staged a s)
        = <[staging_directory s := {[ schema_file_name (actionGroupName a) := file ]}]>
            (fs s).
Proof.
  intros Hp. destruct (publishes_file a Hp) as (_ & file & Hf).
  unfold staged, child_ids. rewrite Hf. simpl. rewrite fmap_app.
  repeat split; try done. by exists file.
Qed.

(** Publications write to the directories they create only. *)
Lemma publications_fs_other l : ∀ s dir,
  dir ∉ staging_directories (tmpdir s) (mkdtemp_source s) (mkdtemp_drawn s)
          (length (filter publishes l)) →
  fs (publications l s) !! dir = fs s !! dir.
Proof.
  induction l as [|a l IH]; intros s dir Hd; [done|]. simpl.
  rewrite filter_cons in Hd. destruct (publishes a) eqn:Hp; [|by apply IH].
  destruct (staged_fields a s Hp) as (_ & Et & Es & Em & _ & file & _ & Ef).
  unfold staging_directories in *. simpl in Hd.
  apply not_elem_of_cons in Hd as [Hd1 Hd2].
  rewrite IH by (by rewrite Et, Es, Em).
  rewrite Ef. by apply lookup_insert_ne.
Qed.

Lemma publications_staged l : ∀ s,
  NoDup (staging_directories (tmpdir s) (mkdtemp_source s) (mkdtemp_drawn s)
           (length (filter publishes l))) →
  Forall2 (staged_in (fs (publications l s))) (filter publishes l)
    (planned_deployments (assetManagementBucket s) (tmpdir s) (mkdtemp_source s)
       (mkdtemp_drawn s) l).
Proof.
  induction l as [|a l IH]; intros s Hnd; [constructor|]. simpl.
  rewrite filter_cons in Hnd |- *. destruct (publishes a) eqn:Hp; [|by apply IH].
  destruct (staged_fields a s Hp) as (Eb & Et & Es & Em & _ & file & Efile & Ef).
  unfold staging_directories in Hnd. simpl in Hnd.
  apply list.NoDup_cons in Hnd as [Hfresh Hnd].
  simpl. constructor.
  - exists file, (staging_directory s). split; [done|]. split; [done|].
    rewrite publications_fs_other by (by rewrite Et, Es, Em).
    rewrite Ef. apply lookup_insert_eq.
  - rewrite <- Eb, <- Et, <- Es, <- Em. apply IH. by rewrite Et, Es, Em.
Qed.

(** X9: when the temporary names drawn for the publications of a batch that
    can be assembled are pairwise distinct, then after the assembly each
    deployment in the tree has as its only source a directory that still
    exists and holds exactly one file: the schema file of the specification
    it was declared for, under the name OpenAPISchema_ followed by the
    action group name and .json.  Deployments and specifications resolved
    through their file correspond one to one, in order. *)
Theorem deployments_read_their_staged_file p props :
  assemblable (props_actionGroups props) →
  let l := batch_list (props_actionGroups props) in
  NoDup (p_mkdtemp_source p <$> seq 0 (length (filter publishes l))) →
  ∃ sf, new_construct p props = Ok tt sf
    ∧ Forall2 (staged_in (fs sf)) (filter publishes l) (deployments (children sf)).
Proof.
  intros Hasm l Hnd.
  destruct (new_construct_deployments p props Hasm) as (sf & E & D & F).
  exists sf. split; [done|]. fold l in D, F. rewrite D, F.
  destruct (after_store_fields p props) as (_ & _ & _ & _ & _ & _ & _ & Est).
  destruct (after_store_more p props) as (Etmp & Ems & Emd & _).
  rewrite <- Est, <- Etmp, <- Ems, <- Emd.
  apply publications_staged. rewrite Etmp, Ems, Emd.
  unfold staging_directories.
  rewrite (list_fmap_compose (p_mkdtemp_source p)
             (String.append (p_tmpdir p +:+ "/" +:+ "cdk-"))).
  apply (NoDup_fmap_2 _), Hnd.
Qed.

Lemma deployments_read_their_staged_file_witness :
  ∃ sf,
    new_construct ex_fresh_process
      (ex_props None (Some [ex_files; ex_ping; ex_group "more" ex_file_and_function None]))
    = Ok tt sf
    ∧ Forall2 (staged_in (fs sf))
        [ex_files; ex_group "more" ex_file_and_function None]
        (deployments (children sf)).
Proof.
  destruct (deployments_read_their_staged_file ex_fresh_process
              (ex_props None
                 (Some [ex_files; ex_ping; ex_group "more" ex_file_and_function None])))
    as (sf & E & F).
  - decide_closed.
  - decide_closed.
  - exists sf. split; [exact E | exact F].
Defined.

(** ** Assembling in steps *)

Lemma publications_app l1 l2 : ∀ s,
  publications (l1 ++ l2) s = publications l2 (publications l1 s).
Proof. induction l1 as [|a l1 IH]; intros s; [done|]. simpl. apply IH. Qed.

Lemma publications_set_agentDefinition l : ∀ s D,
  publications l (set_agentDefinition D s) = set_agentDefinition D (publications l s).
Proof.
  induction l as [|a l IH]; intros s D; [done|]. simpl.
  destruct (publishes a); [|apply IH]. rewrite <- IH. f_equal.
  unfold staged. by destruct (apiSchemaFile (schemaDefinition a)).
Qed.

(** A list can be assembled when its first part can, and the rest can once
    the first part has been published. *)
Lemma can_assemble_app l1 l2 : ∀ s,
  can_assemble s (l1 ++ l2)
  ↔ can_assemble s l1 ∧ can_assemble (publications l1 s) l2.
Proof.
  induction l1 as [|a l1 IH]; intros s.
  - simpl. split; [|by intros [_ ?]]. intros H. split; [|done].
    unfold can_assemble. repeat split; try constructor. done.
  - assert (assetManagementBucket (if publishes a then staged a s else s)
            = assetManagementBucket s
            ∧ child_ids (if publishes a then staged a s else s)
              = child_ids s ++
                  (if publishes a then [deployment_id (actionGroupName a)] else []))
      as [Hb Hc].
    { destruct (publishes a) eqn:Hp; [|by rewrite app_nil_r].
      by destruct (staged_fields a s Hp) as (? & _ & _ & _ & ? & _). }
    simpl. rewrite (can_assemble_cons s _ a (l1 ++ l2) Hb Hc).
    rewrite (can_assemble_cons s _ a l1 Hb Hc), IH. tauto.
Qed.

(** X10: assembling a batch in two calls gives the same state as assembling
    it in one: before a role exists, for two lists of specifications that
    can be assembled one after the other, [associateActionGroupInfo] on the
    first list followed by [associateActionGroupInfo] on the second is
    [associateActionGroupInfo] on the two lists appended, since each call
    appends to the action groups the definition already has. *)
Theorem associateActionGroupInfo_in_two_steps l1 l2 s :
  agentServiceRole s = None → can_assemble s (l1 ++ l2) →
  (associateActionGroupInfo (Some l1);; associateActionGroupInfo (Some l2)) s
  = associateActionGroupInfo (Some (l1 ++ l2)) s.
Proof.
  intros Hr H12. destruct (proj1 (can_assemble_app l1 l2 s) H12) as [H1 H2].
  rewrite (bind_Ok _ _ _ _ _ (associateActionGroupInfo_run (Some l1) s Hr H1)).
  destruct (publications_fields l1 s) as (_ & _ & _ & _ & _ & Ed & Er & _).
  rewrite (associateActionGroupInfo_run (Some l2));
    [|simpl; by rewrite Er | exact H2].
  rewrite (associateActionGroupInfo_run (Some (l1 ++ l2)) s Hr H12).
  unfold batch_list. simpl.
  rewrite publications_app, publications_set_agentDefinition.
  generalize (publications l2 (publications l1 s)). intros s2.
  rewrite fmap_app, app_assoc.
  destruct s2, (agentDefinition s). reflexivity.
Qed.

Lemma associateActionGroupInfo_in_two_steps_witness :
  (associateActionGroupInfo (Some [ex_ping; ex_files]);;
   associateActionGroupInfo (Some [ex_lookup])) ex_store_state
  = associateActionGroupInfo (Some ([ex_ping; ex_files] ++ [ex_lookup])) ex_store_state.
Proof.
  apply (associateActionGroupInfo_in_two_steps [ex_ping; ex_files] [ex_lookup]
           ex_store_state).
  - reflexivity.
  - decide_closed.
Defined.

(** When the second list holds a specification the resolver rejects, the
    two ways differ: in two calls the fragments of the first list are
    already in the definition when the second call throws. *)
Lemma two_steps_commit_the_first :
  let two := (associateActionGroupInfo (Some [ex_ping]);;
              associateActionGroupInfo (Some [ex_broken])) ex_store_state in
  let one := associateActionGroupInfo (Some [ex_ping; ex_broken]) ex_store_state in
  returned two = false ∧ returned one = false
  ∧ length (default [] (CfnAgent.actionGroups (agentDefinition (final two)))) = 1
  ∧ CfnAgent.actionGroups (agentDefinition (final one)) = None.
Proof. by vm_compute. Qed.

(** ** A store that is declared and not used *)

Lemma planned_deployments_nil bucket tmp source n l :
  planned_deployments bucket tmp source n l = []
  ↔ Forall (λ a, with_file a → has_inline (schemaDefinition a)) l.
Proof.
  revert n. induction l as [|a l IH]; intros n; simpl.
  - split; [constructor | done].
  - rewrite list.Forall_cons. unfold publishes at 1, with_file at 1.
    destruct (has_inline (schemaDefinition a)), (has_file (schemaDefinition a)); simpl;
      rewrite ?IH;
      (split; [intros H; try done; by split
              | intros [Ha H]; try done; destruct (Ha I)]).
Qed.

(** X11: after the assembly of a batch that can be assembled, the tree
    holds a store and no deployment exactly when some specification has a
    file and every specification with a file also has a non-empty inline
    document: [checkActionsRequireArtifacts] looks at the files alone, while
    the resolver prefers the inline document. *)
Theorem store_declared_and_not_used p props :
  assemblable (props_actionGroups props) →
  let l := batch_list (props_actionGroups props) in
  ∃ sf, new_construct p props = Ok tt sf
    ∧ (buckets (children sf) ≠ [] ∧ deployments (children sf) = []
       ↔ Exists with_file l
         ∧ Forall (λ a, with_file a → has_inline (schemaDefinition a)) l).
Proof.
  intros Hasm l.
  destruct (new_construct_deployments p props Hasm) as (sf & E & D & _).
  exists sf. split; [done|].
  pose proof (new_construct_buckets p props) as Hb. rewrite E in Hb. simpl in Hb.
  rewrite Hb. fold l in D. rewrite D, planned_deployments_nil.
  assert (checkActionsRequireArtifacts (props_actionGroups props) = true
          ↔ Exists with_file l) as Hc.
  { subst l. unfold batch_list. destruct (props_actionGroups props) as [l0|]; simpl.
    - rewrite existsb_exists, Exists_exists. unfold with_file, has_file.
      split; intros (a & Ha & Hf); exists a.
      + split; [first [done | by apply list_elem_of_In] | by rewrite Hf].
      + split; [first [done | by apply list_elem_of_In] | by apply Is_true_true].
    - split; [done | by inversion 1]. }
  destruct (checkActionsRequireArtifacts (props_actionGroups props)).
  - split; intros [_ Hf].
    + split; [by apply Hc | done].
    + split; done.
  - split.
    + intros [Hne _]. by destruct Hne.
    + intros [Hex _]. apply Hc in Hex. done.
Qed.

Lemma store_declared_and_not_used_witness :
  ∃ sf,
    new_construct (ex_process ex_env)
      (ex_props None (Some [ex_ping; ex_group "both" ex_all None])) = Ok tt sf
    ∧ length (buckets (children sf)) = 1 ∧ deployments (children sf) = [].
Proof.
  destruct (store_declared_and_not_used (ex_process ex_env)
              (ex_props None (Some [ex_ping; ex_group "both" ex_all None])))
    as (sf & E & H).
  - decide_closed.
  - exists sf. split; [exact E|].
    destruct (proj2 H) as [Hb Hd].
    + split; [right; left; exact I|]. repeat constructor.
    + split; [|exact Hd].
      pose proof (new_construct_buckets (ex_process ex_env)
                    (ex_props None (Some [ex_ping; ex_group "both" ex_all None]))) as B.
      rewrite E in B. simpl in B. by rewrite B.
Defined.

(** ** The fields of the construct *)

(** X12: after the assembly of a batch that can be assembled, the fields of
    the construct refer to what is in the tree: [agent] to the one agent
    declared, whose definition is [agentDefinition]; [agentServiceRole] to
    the synthesized role, and it is undefined when the caller supplied one;
    [assetManagementBucket] to the store, and it is undefined when none was
    declared.  The definition always ends with a non-empty role reference:
    the caller's, or the ARN of the synthesized role. *)
Theorem construct_fields_after_assembly p props :
  assemblable (props_actionGroups props) →
  let d := props_agentDefinition props in
  ∃ sf, new_construct p props = Ok tt sf
    ∧ (∃ a, agent sf = Some a ∧ agents (children sf) = [(a, agentDefinition sf)])
    ∧ truthy_string (CfnAgent.agentResourceRoleArn (agentDefinition sf)) = true
    ∧ match agentServiceRole sf with
      | Some id =>
          truthy_string (CfnAgent.agentResourceRoleArn d) = false
          ∧ (∃ r, roles (children sf) = [(id, r)])
          ∧ CfnAgent.agentResourceRoleArn (agentDefinition sf) = Some (token id "Arn")
      | None =>
          truthy_string (CfnAgent.agentResourceRoleArn d) = true
          ∧ roles (children sf) = []
          ∧ CfnAgent.agentResourceRoleArn (agentDefinition sf)
            = CfnAgent.agentResourceRoleArn d
      end
    ∧ match assetManagementBucket sf with
      | Some id => buckets (children sf) = [(id, artifact_store)]
      | None => buckets (children sf) = []
      end.
Proof.
  intros Hasm d. subst d.
  destruct (new_construct_run p props Hasm)
    as (sf & E & Ch & D & A & _ & _ & _ & _ & R & B).
  exists sf. split; [done|]. rewrite Ch, D, A, R, B.
  set (pl := planned_deployments (store_id p props) (p_tmpdir p) (p_mkdtemp_source p) 0
               (batch_list (props_actionGroups props))).
  destruct (as_child_projections pl) as (Bpl & Rpl & Apl & _).
  destruct (declared_store_roles p props) as (Rst & Ast & _).
  destruct (declared_role_other p props) as (Br & Ar & _).
  pose proof (declared_store_buckets p props) as Bst.
  split.
  { eexists. split; [done|]. unfold agents in *.
    by rewrite !omap_app, Ast, Apl, Ar. }
  assert (roles (declared_store p props ++ (as_child <$> pl) ++ declared_role p props
                   ++ [(agent_id (props_agentDefinition props),
                        RAgent (final_definition props))])
          = roles (declared_role p props)) as ->.
  { unfold roles in *. rewrite !omap_app, Rst, Rpl. simpl. by rewrite app_nil_r. }
  assert (buckets (declared_store p props ++ (as_child <$> pl) ++ declared_role p props
                     ++ [(agent_id (props_agentDefinition props),
                          RAgent (final_definition props))])
          = buckets (declared_store p props)) as ->.
  { unfold buckets in *. rewrite !omap_app, Bpl, Br. simpl. by rewrite !app_nil_r. }
  rewrite Bst. unfold final_definition, final_role, declared_role, store_id.
  simpl.
  destruct (truthy_string
              (CfnAgent.agentResourceRoleArn (props_agentDefinition props))) eqn:Ht;
    destruct (checkActionsRequireArtifacts (props_actionGroups props));
    repeat split; try done; by eexists.
Qed.

Lemma construct_fields_after_assembly_witness :
  ∃ sf,
    new_construct (ex_process ex_env) (ex_props None (Some [ex_ping; ex_files])) = Ok tt sf
    ∧ agent sf = Some "AgentBlueprint-helper"
    ∧ agentServiceRole sf = Some "BedrockServiceRole"
    ∧ assetManagementBucket sf = Some "AgentBlueprintAssets-0f8fad5b-d9c".
Proof.
  destruct (construct_fields_after_assembly (ex_process ex_env)
              (ex_props None (Some [ex_ping; ex_files])))
    as (sf & E & _).
  - decide_closed.
  - exists sf. split; [exact E|].
    assert (sf = final (new_construct (ex_process ex_env)
                          (ex_props None (Some [ex_ping; ex_files])))) as ->.
    { by rewrite E. }
    vm_compute. repeat split; reflexivity.
Defined.

(** ** The store decision *)

(** X13: which store the constructor declares does not depend on the order
    of the batch: for two batches that are permutations of each other the
    stores in the tree are the same when the constructor stops, whether it
    returns or throws. *)
Theorem store_decision_ignores_order p d l1 l2 :
  l1 ≡ₚ l2 →
  buckets (children (final (new_construct p
     {| props_agentDefinition := d; props_actionGroups := Some l1 |})))
  = buckets (children (final (new_construct p
     {| props_agentDefinition := d; props_actionGroups := Some l2 |}))).
Proof.
  intros Hp. rewrite !new_construct_buckets. simpl.
  assert (existsb (λ action, truthy_object (apiSchemaFile (schemaDefinition action))) l1
          = existsb (λ action, truthy_object (apiSchemaFile (schemaDefinition action))) l2)
    as ->; [|done].
  induction Hp as [|x l l' _ IH|x y l|l l' l'' _ IH1 _ IH2]; simpl.
  - done.
  - by rewrite IH.
  - by rewrite !orb_assoc, (orb_comm (truthy_object _)).
  - by rewrite IH1.
Qed.

Lemma store_decision_ignores_order_witness :
  buckets (children (final (new_construct (ex_process ex_env)
     (ex_props None (Some [ex_broken; ex_files])))))
  = buckets (children (final (new_construct (ex_process ex_env)
     (ex_props None (Some [ex_files; ex_broken]))))).
Proof.
  apply (store_decision_ignores_order (ex_process ex_env) (ex_definition None)
           [ex_broken; ex_files] [ex_files; ex_broken]).
  apply perm_swap.
Defined.
